(** * Clarifi: the client store, the real-time hook and the monitor form

    A shallow embedding of the parts of the Clarifi front end that keep the
    monitoring engine's state on the client:

    - [frontend/src/store/appStore.js]: the zustand store with its three
      paginated collections (summaries, monitors, notifications);
    - [frontend/src/hooks/useWebSocket.jsx]: the connection life cycle
      ([connect], [disconnect], [sendMessage]) and the message dispatcher
      ([handleMessage]);
    - [frontend/src/pages/Monitors.jsx]: the monitor creation form;
    - the notification list page: the message preview.

    JavaScript objects are finite maps from property names to values, arrays
    are lists, object spread is a left-biased union of maps. *)

From Stdlib Require Import ZArith Ascii String.
From Stdlib Require QArith.
From stdpp Require Import base option list gmap strings pretty.

Local Open Scope string_scope.
Local Open Scope list_scope.
Local Open Scope Z_scope.

(** ** JavaScript values *)

Module JS.

(** The values that travel through the store.  Numbers are the integer-valued
    doubles plus [NaN]; nested objects and arrays are held by reference
    ([VRef]), which is all a shallow copy ever sees of them.  A character of a
    [string] stands for one UTF-16 code unit. *)
Inductive value : Type :=
  | VUndefined
  | VNull
  | VBool (b : bool)
  | VNum (n : Z)
  | VNaN
  | VStr (s : string)
  | VRef (r : nat).

#[export] Instance value_eq_dec : EqDecision value.
Proof. solve_decision. Defined.

(** [a === b] *)
Definition strict_eq (a b : value) : bool :=
  match a, b with
  | VUndefined, VUndefined => true
  | VNull, VNull => true
  | VBool x, VBool y => Bool.eqb x y
  | VNum x, VNum y => Z.eqb x y
  | VStr x, VStr y => String.eqb x y
  | VRef x, VRef y => Nat.eqb x y
  | _, _ => false
  end.

(** ToBoolean *)
Definition truthy (v : value) : bool :=
  match v with
  | VUndefined | VNull | VNaN => false
  | VBool b => b
  | VNum n => negb (Z.eqb n 0)
  | VStr s => negb (String.eqb s "")
  | VRef _ => true
  end.

(** An object: its own enumerable properties. *)
Abbreviation obj := (gmap string value).

(** [o.k]: a missing property reads as [undefined]. *)
Definition get (o : obj) (k : string) : value := default VUndefined (o !! k).

(** [{ ...a, ...b }]: the properties of [b] win. *)
Definition spread (a b : obj) : obj := b ∪ a.

(** [s.substring(from, to)] for non-negative integer arguments: the
    arguments are clamped to the length and swapped when out of order. *)
Definition substring (s : string) (from to : nat) : string :=
  String.substring (Nat.min from to) (Nat.max from to - Nat.min from to) s.

End JS.

Import JS.

(** ** The store ([appStore.js]) *)

Module Store.

(** [pagination: { page, per_page, total, has_more }].  The counters are
    numbers; the store only ever adds one to [total] or takes one off it.
    Integers stand for the doubles, and [+ 1] and [- 1] on them are what
    the doubles compute as long as the counter is below [2 ^ 53]; at
    [2 ^ 53] a double no longer grows by one.  A property that needs the
    arithmetic to be exact carries that bound. *)
Record pagination : Type := mkPagination {
  page : Z;
  per_page : Z;
  total : Z;
  has_more : bool
}.

(** One paginated collection: [{ items, loading, error, pagination }]. *)
Record slice : Type := mkSlice {
  items : list obj;
  loading : bool;
  error : value;
  slice_pagination : pagination
}.

Record ui_state : Type := mkUi {
  sidebarOpen : bool;
  currentUrl : string;
  ui_loading : bool;
  ui_error : value;
  toast : option obj
}.

Record stats_state : Type := mkStats {
  stats_summaries : value;
  stats_monitors : value;
  stats_notifications : value;
  stats_loading : bool;
  stats_error : value
}.

Record store : Type := mkStore {
  ui : ui_state;
  summaries : slice;
  monitors : slice;
  notifications : slice;
  currentSummary : option obj;
  stats : stats_state
}.

Definition initial_pagination : pagination :=
  {| page := 1; per_page := 20; total := 0; has_more := false |}.

Definition initial_slice : slice :=
  {| items := []; loading := false; error := VNull;
     slice_pagination := initial_pagination |}.

Definition initial_store : store :=
  {| ui := {| sidebarOpen := false; currentUrl := ""; ui_loading := false;
              ui_error := VNull; toast := None |};
     summaries := initial_slice;
     monitors := initial_slice;
     notifications := initial_slice;
     currentSummary := None;
     stats := {| stats_summaries := VNull; stats_monitors := VNull;
                 stats_notifications := VNull; stats_loading := false;
                 stats_error := VNull |} |}.

(** [set((state) => ({ monitors: ... }))] merges one key into the state; the
    three setters below are that merge for each collection. *)
Definition set_summaries (f : slice → slice) (st : store) : store :=
  {| ui := ui st; summaries := f (summaries st); monitors := monitors st;
     notifications := notifications st; currentSummary := currentSummary st;
     stats := stats st |}.

Definition set_monitors (f : slice → slice) (st : store) : store :=
  {| ui := ui st; summaries := summaries st; monitors := f (monitors st);
     notifications := notifications st; currentSummary := currentSummary st;
     stats := stats st |}.

Definition set_notifications (f : slice → slice) (st : store) : store :=
  {| ui := ui st; summaries := summaries st; monitors := monitors st;
     notifications := f (notifications st);
     currentSummary := currentSummary st; stats := stats st |}.

(** [{ ...slice, items: its }] *)
Definition with_items (its : list obj) (s : slice) : slice :=
  {| items := its; loading := loading s; error := error s;
     slice_pagination := slice_pagination s |}.

(** [{ ...pagination, total: t }] *)
Definition with_total (t : Z) (p : pagination) : pagination :=
  {| page := page p; per_page := per_page p; total := t;
     has_more := has_more p |}.

(** [{ ...slice, items: its, pagination: { ...slice.pagination, total: t } }] *)
Definition with_items_total (its : list obj) (t : Z) (s : slice) : slice :=
  {| items := its; loading := loading s; error := error s;
     slice_pagination := with_total t (slice_pagination s) |}.

(** [items: [x, ...items], total: total + 1] *)
Definition add_item (x : obj) (s : slice) : slice :=
  with_items_total (x :: items s) (total (slice_pagination s) + 1) s.

(** [items.map((x) => x.id === id ? { ...x, ...updates } : x)] *)
Definition update_item (id : value) (updates : obj) (x : obj) : obj :=
  if strict_eq (get x "id") id then spread x updates else x.

(** [items.filter((x) => x.id !== id), total: Math.max(0, total - 1)] *)
Definition remove_item (id : value) (s : slice) : slice :=
  with_items_total
    (List.filter (λ x, negb (strict_eq (get x "id") id)) (items s))
    (Z.max 0 (total (slice_pagination s) - 1)) s.

(** *** Summary actions *)

Definition addSummary (summary : obj) : store → store :=
  set_summaries (add_item summary).

Definition updateSummary (id : value) (updates : obj) : store → store :=
  set_summaries (λ s, with_items (update_item id updates <$> items s) s).

Definition removeSummary (id : value) : store → store :=
  set_summaries (remove_item id).

(** *** Monitor actions *)

Definition addMonitor (monitor : obj) : store → store :=
  set_monitors (add_item monitor).

Definition updateMonitor (id : value) (updates : obj) : store → store :=
  set_monitors (λ s, with_items (update_item id updates <$> items s) s).

Definition removeMonitor (id : value) : store → store :=
  set_monitors (remove_item id).

(** *** Notification actions *)

Definition addNotification (notification : obj) : store → store :=
  set_notifications (add_item notification).

(** [{ ...notification, is_read: true, read_at: new Date().toISOString() }] *)
Definition mark_read (now : string) (notification : obj) : obj :=
  <["read_at" := VStr now]> (<["is_read" := VBool true]> notification).

(** The system clock: [clock k] is the ISO string that the [k]-th evaluation
    of [new Date().toISOString()] returns.  The callbacks of the two marking
    actions read the clock once per notification they rewrite, in list order;
    the functions below thread the number of readings made so far. *)
Fixpoint mark_matching (clock : nat → string) (id : value) (k : nat)
    (l : list obj) : list obj * nat :=
  match l with
  | [] => ([], k)
  | n :: rest =>
      if strict_eq (get n "id") id
      then let '(rest', k') := mark_matching clock id (S k) rest in
           (mark_read (clock k) n :: rest', k')
      else let '(rest', k') := mark_matching clock id k rest in
           (n :: rest', k')
  end.

Fixpoint mark_every (clock : nat → string) (k : nat) (l : list obj)
    : list obj * nat :=
  match l with
  | [] => ([], k)
  | n :: rest =>
      let '(rest', k') := mark_every clock (S k) rest in
      (mark_read (clock k) n :: rest', k')
  end.

Definition markNotificationRead (clock : nat → string) (id : value)
    (k : nat) (st : store) : store * nat :=
  let '(its, k') := mark_matching clock id k (items (notifications st)) in
  (set_notifications (with_items its) st, k').

Definition markAllNotificationsRead (clock : nat → string)
    (k : nat) (st : store) : store * nat :=
  let '(its, k') := mark_every clock k (items (notifications st)) in
  (set_notifications (with_items its) st, k').

Definition removeNotification (id : value) : store → store :=
  set_notifications (remove_item id).

(** [showToast(toast)]: [ui: { ...state.ui, toast }] *)
Definition showToast (t : obj) (st : store) : store :=
  {| ui := {| sidebarOpen := sidebarOpen (ui st);
              currentUrl := currentUrl (ui st);
              ui_loading := ui_loading (ui st);
              ui_error := ui_error (ui st);
              toast := Some t |};
     summaries := summaries st; monitors := monitors st;
     notifications := notifications st;
     currentSummary := currentSummary st; stats := stats st |}.

(** *** Sequences of add and remove actions *)

Inductive action : Type :=
  | AddSummary (summary : obj)
  | UpdateSummary (id : value) (updates : obj)
  | RemoveSummary (id : value)
  | AddMonitor (monitor : obj)
  | UpdateMonitor (id : value) (updates : obj)
  | RemoveMonitor (id : value)
  | AddNotification (notification : obj)
  | RemoveNotification (id : value).

Definition dispatch (a : action) : store → store :=
  match a with
  | AddSummary s => addSummary s
  | UpdateSummary id u => updateSummary id u
  | RemoveSummary id => removeSummary id
  | AddMonitor m => addMonitor m
  | UpdateMonitor id u => updateMonitor id u
  | RemoveMonitor id => removeMonitor id
  | AddNotification n => addNotification n
  | RemoveNotification id => removeNotification id
  end.

Definition run (acts : list action) (st : store) : store :=
  foldl (λ s a, dispatch a s) st acts.

(** The three recorded totals are all non-negative. *)
Definition totals_nonneg (st : store) : Prop :=
  0 ≤ total (slice_pagination (summaries st)) ∧
  0 ≤ total (slice_pagination (monitors st)) ∧
  0 ≤ total (slice_pagination (notifications st)).

(** *** Vocabulary of the statements about the store *)

(** A notification that is read and carries a time stamp. *)
Definition read_and_stamped (n : obj) : Prop :=
  n !! "is_read" = Some (VBool true) ∧ ∃ ts, n !! "read_at" = Some (VStr ts).

(** [n'] is [n] marked as read: read, stamped, and otherwise as before. *)
Definition marked (n n' : obj) : Prop :=
  read_and_stamped n' ∧
  (∀ f, f ≠ "is_read" → f ≠ "read_at" → n' !! f = n !! f).

(** [st'] is [st] except for the list of notifications. *)
Definition same_but_notification_items (st st' : store) : Prop :=
  ui st' = ui st ∧ summaries st' = summaries st ∧
  monitors st' = monitors st ∧ currentSummary st' = currentSummary st ∧
  stats st' = stats st ∧
  loading (notifications st') = loading (notifications st) ∧
  error (notifications st') = error (notifications st) ∧
  slice_pagination (notifications st') = slice_pagination (notifications st).

(** [st'] is [st] except for the list of monitors. *)
Definition same_but_monitor_items (st st' : store) : Prop :=
  ui st' = ui st ∧ summaries st' = summaries st ∧
  notifications st' = notifications st ∧
  currentSummary st' = currentSummary st ∧ stats st' = stats st ∧
  loading (monitors st') = loading (monitors st) ∧
  error (monitors st') = error (monitors st) ∧
  slice_pagination (monitors st') = slice_pagination (monitors st).

(** [m'] is [m] with the properties of [updates] written over it. *)
Definition merged (updates m m' : obj) : Prop :=
  (∀ f v, updates !! f = Some v → m' !! f = Some v) ∧
  (∀ f, updates !! f = None → m' !! f = m !! f).

End Store.

(** ** The real-time hook ([useWebSocket.jsx]) *)

Module Hook.

Import Store.

(** *** Incoming messages: [handleMessage] *)

(** The envelope [{ type, data }] that [JSON.parse] yields; the payload is an
    object. *)
Record message : Type := mkMessage {
  msg_type : value;
  msg_data : obj
}.

Inductive toast_kind : Type :=
  | ToastSuccess | ToastError | ToastWarning | ToastPlain.

(** What [handleMessage] does besides writing to the store. *)
Inductive effect : Type :=
  | Toast (kind : toast_kind) (text : string) (duration : Z)
  | ToastCustom (notification : obj) (duration : Z)
  | ConsoleLog (text : string)
  | TypeError.

(** ToString, as a template literal applies it. *)
Definition to_string (v : value) : string :=
  match v with
  | VUndefined => "undefined"
  | VNull => "null"
  | VBool true => "true"
  | VBool false => "false"
  | VNum n => pretty n
  | VNaN => "NaN"
  | VStr s => s
  | VRef _ => "[object Object]"
  end.

(** [s.includes(sub)] *)
Definition includes (s sub : string) : bool :=
  match String.index 0 sub s with
  | Some _ => true
  | None => false
  end.

(** [`${title}: ${message.substring(0, 80)}${message.length > 80 ? '...' : ''}`];
    calling [substring] on anything but a string throws. *)
Definition toast_text (notification : obj) : option string :=
  match get notification "message" with
  | VStr m =>
      Some (to_string (get notification "title") +:+ ": "
            +:+ substring m 0 80
            +:+ (if (80 <? String.length m)%nat then "..." else ""))
  | _ => None
  end.

Definition simple_toast (kind : toast_kind) (duration : Z)
    (notification : obj) : list effect :=
  match toast_text notification with
  | Some text => [Toast kind text duration]
  | None => [TypeError]
  end.

(** The inner [switch (notification.notification_type)]; in its default
    branch, [title.includes] on a title that is not a string throws. *)
Definition notify (notification : obj) : list effect :=
  let type := get notification "notification_type" in
  if strict_eq type (VStr "success")
  then simple_toast ToastSuccess 6000 notification
  else if strict_eq type (VStr "error")
  then simple_toast ToastError 8000 notification
  else if strict_eq type (VStr "warning")
  then simple_toast ToastWarning 7000 notification
  else match get notification "title" with
       | VStr title =>
           if includes title "Monitor Alert"
           then [ToastCustom notification 10000]
           else simple_toast ToastPlain 6000 notification
       | _ => [TypeError]
       end.

(** The object literal passed to [updateMonitor]:
    [{ current_value, last_checked, ...(has_changed && { last_changed: last_checked }) }];
    spreading a falsy value adds nothing. *)
Definition monitor_updates (monitorUpdate : obj) : obj :=
  let base : obj :=
    <["last_checked" := get monitorUpdate "last_checked"]>
      (<["current_value" := get monitorUpdate "current_value"]> ∅) in
  if truthy (get monitorUpdate "has_changed")
  then spread base {["last_changed" := get monitorUpdate "last_checked"]}
  else base.

Definition handleMessage (m : message) (st : store) : store * list effect :=
  let type := msg_type m in
  if strict_eq type (VStr "notification")
  then (addNotification (msg_data m) st, notify (msg_data m))
  else if strict_eq type (VStr "monitor_update")
  then (updateMonitor (get (msg_data m) "monitor_id")
          (monitor_updates (msg_data m)) st, [])
  else if strict_eq type (VStr "system_status")
  then (st, [ConsoleLog "System status update:"])
  else (st, [ConsoleLog "Unknown message type:"]).

(** *** The connection life cycle *)

Inductive ready_state : Type := CONNECTING | OPEN | CLOSING | CLOSED.

Inductive status : Type := disconnected | connecting | connected.

#[export] Instance ready_state_eq_dec : EqDecision ready_state.
Proof. solve_decision. Defined.

#[export] Instance status_eq_dec : EqDecision status.
Proof. solve_decision. Defined.

(** A [WebSocket] made by [connect]: its [readyState] and the frames handed to
    [send] so far.  Every socket carries the four handlers [connect] installs,
    for as long as it lives. *)
Record socket : Type := mkSocket {
  readyState : ready_state;
  sent : list string
}.

(** The hook's state, the sockets it has created (a socket's number is its
    position in [sockets]), the browser's pending timeouts (identifier and
    delay in milliseconds; the callback is always [connect]) and the store. *)
Record hook : Type := mkHook {
  url_ok : bool;
  isConnected : bool;
  connectionStatus : status;
  wsRef : option nat;
  reconnectTimeoutRef : option nat;
  sockets : list socket;
  timers : list (nat * Z);
  next_timer : nat;
  console : list string;
  app : store
}.

(** Timer identifiers are positive integers, so a stored one is truthy. *)
Definition initial_hook (ok : bool) : hook :=
  {| url_ok := ok; isConnected := false; connectionStatus := disconnected;
     wsRef := None; reconnectTimeoutRef := None; sockets := [];
     timers := []; next_timer := 1; console := []; app := initial_store |}.

Definition setIsConnected (b : bool) (h : hook) : hook :=
  mkHook (url_ok h) b (connectionStatus h) (wsRef h) (reconnectTimeoutRef h)
    (sockets h) (timers h) (next_timer h) (console h) (app h).

Definition setConnectionStatus (s : status) (h : hook) : hook :=
  mkHook (url_ok h) (isConnected h) s (wsRef h) (reconnectTimeoutRef h)
    (sockets h) (timers h) (next_timer h) (console h) (app h).

Definition set_wsRef (r : option nat) (h : hook) : hook :=
  mkHook (url_ok h) (isConnected h) (connectionStatus h) r
    (reconnectTimeoutRef h) (sockets h) (timers h) (next_timer h)
    (console h) (app h).

Definition set_reconnectTimeoutRef (r : option nat) (h : hook) : hook :=
  mkHook (url_ok h) (isConnected h) (connectionStatus h) (wsRef h) r
    (sockets h) (timers h) (next_timer h) (console h) (app h).

Definition set_sockets (l : list socket) (h : hook) : hook :=
  mkHook (url_ok h) (isConnected h) (connectionStatus h) (wsRef h)
    (reconnectTimeoutRef h) l (timers h) (next_timer h) (console h) (app h).

Definition set_app (st : store) (h : hook) : hook :=
  mkHook (url_ok h) (isConnected h) (connectionStatus h) (wsRef h)
    (reconnectTimeoutRef h) (sockets h) (timers h) (next_timer h)
    (console h) st.

Definition log (line : string) (h : hook) : hook :=
  mkHook (url_ok h) (isConnected h) (connectionStatus h) (wsRef h)
    (reconnectTimeoutRef h) (sockets h) (timers h) (next_timer h)
    (console h ++ [line]) (app h).

(** [setTimeout(callback, delay)]: registers a pending timeout and returns
    its identifier. *)
Definition setTimeout (delay : Z) (h : hook) : nat * hook :=
  (next_timer h,
   mkHook (url_ok h) (isConnected h) (connectionStatus h) (wsRef h)
     (reconnectTimeoutRef h) (sockets h)
     (timers h ++ [(next_timer h, delay)]) (S (next_timer h))
     (console h) (app h)).

(** [clearTimeout(id)] *)
Definition clearTimeout (id : nat) (h : hook) : hook :=
  mkHook (url_ok h) (isConnected h) (connectionStatus h) (wsRef h)
    (reconnectTimeoutRef h) (sockets h)
    (List.filter (λ t, negb (Nat.eqb (fst t) id)) (timers h))
    (next_timer h) (console h) (app h).

Definition set_readyState (s : nat) (r : ready_state) (h : hook) : hook :=
  set_sockets (alter (λ k, mkSocket r (sent k)) s (sockets h)) h.

(** [if (reconnectTimeoutRef.current) { clearTimeout(...); ... = null; }] *)
Definition clear_reconnect (h : hook) : hook :=
  match reconnectTimeoutRef h with
  | Some t =>
      if Nat.eqb t 0 then h
      else set_reconnectTimeoutRef None (clearTimeout t h)
  | None => h
  end.

(** [connect()]: [new WebSocket(url)] throws on a malformed URL, before
    [wsRef.current] is assigned. *)
Definition connect (h : hook) : hook :=
  let h := setConnectionStatus connecting h in
  if url_ok h
  then set_wsRef (Some (length (sockets h)))
         (set_sockets (sockets h ++ [mkSocket CONNECTING []]) h)
  else setConnectionStatus disconnected
         (log "Error connecting to WebSocket:" h).

(** [ws.onopen] *)
Definition onopen (h : hook) : hook :=
  clear_reconnect
    (log "WebSocket connected"
       (setConnectionStatus connected (setIsConnected true h))).

(** [ws.onclose] *)
Definition onclose (h : hook) : hook :=
  let h := log "WebSocket disconnected"
             (setConnectionStatus disconnected (setIsConnected false h)) in
  let '(t, h) := setTimeout 3000 h in
  set_reconnectTimeoutRef (Some t) h.

(** [ws.onerror] *)
Definition onerror (h : hook) : hook :=
  setConnectionStatus disconnected
    (setIsConnected false (log "WebSocket error:" h)).

(** What the effects of [handleMessage] leave on the console: its own
    [console.log] lines, and the line of the [catch] around it when it threw
    a [TypeError].  Toasts go to the screen. *)
Definition report (e : effect) (h : hook) : hook :=
  match e with
  | ConsoleLog line => log line h
  | TypeError => log "Error parsing WebSocket message:" h
  | Toast _ _ _ | ToastCustom _ _ => h
  end.

(** [ws.onmessage]: [parsed] is what [JSON.parse(event.data)] gave, [None]
    when it threw. *)
Definition onmessage (parsed : option message) (h : hook) : hook :=
  match parsed with
  | Some m =>
      let '(st, effects) := handleMessage m (app h) in
      foldl (λ h e, report e h) (set_app st h) effects
  | None => log "Error parsing WebSocket message:" h
  end.

(** [ws.close()]: starts the closing handshake of a socket that is connecting
    or open; the browser fires the close event once the socket is closed. *)
Definition ws_close (s : nat) (h : hook) : hook :=
  match readyState <$> sockets h !! s with
  | Some CONNECTING | Some OPEN => set_readyState s CLOSING h
  | _ => h
  end.

(** [disconnect()] *)
Definition disconnect (h : hook) : hook :=
  let h := clear_reconnect h in
  let h := match wsRef h with
           | Some s => set_wsRef None (ws_close s h)
           | None => h
           end in
  setConnectionStatus disconnected (setIsConnected false h).

(** The outcome of a call that may throw. *)
Inductive result (A : Type) : Type :=
  | Returned (a : A)
  | Threw.
Arguments Returned {A} a.
Arguments Threw {A}.

(** [ws.send(frame)] on an open socket. *)
Definition ws_send (s : nat) (frame : string) (h : hook) : hook :=
  set_sockets (alter (λ k, mkSocket (readyState k) (sent k ++ [frame])) s
                 (sockets h)) h.

(** [sendMessage(message)]; [stringify] is [JSON.stringify], which throws
    ([None]) on a value it cannot serialise. *)
Definition sendMessage {A : Type} (stringify : A → option string)
    (m : A) (h : hook) : result hook :=
  match wsRef h with
  | Some s =>
      match readyState <$> sockets h !! s with
      | Some OPEN =>
          match stringify m with
          | Some frame => Returned (ws_send s frame h)
          | None => Threw
          end
      | _ => Returned (log "WebSocket is not connected" h)
      end
  | None => Returned (log "WebSocket is not connected" h)
  end.

(** What can happen to the hook: the browser delivers a socket event or fires
    a timeout, or the component calls one of the functions the hook
    returns. *)
Inductive event (A : Type) : Type :=
  | SocketOpen (s : nat)
  | SocketMessage (s : nat) (parsed : option message)
  | SocketError (s : nat)
  | SocketClose (s : nat)
  | TimerFires (t : nat)
  | CallConnect
  | CallDisconnect
  | CallSend (m : A).
Arguments SocketOpen {A} s.
Arguments SocketMessage {A} s parsed.
Arguments SocketError {A} s.
Arguments SocketClose {A} s.
Arguments TimerFires {A} t.
Arguments CallConnect {A}.
Arguments CallDisconnect {A}.
Arguments CallSend {A} m.

Definition pending (t : nat) (h : hook) : bool :=
  existsb (λ p, Nat.eqb (fst p) t) (timers h).

(** One event; [None] when the browser cannot deliver it in this state (an
    open event on a socket that is not connecting, a close event on a socket
    already closed, a timeout that is not pending, ...). *)
Definition step {A : Type} (stringify : A → option string)
    (e : event A) (h : hook) : option hook :=
  match e with
  | SocketOpen s =>
      match readyState <$> sockets h !! s with
      | Some CONNECTING => Some (onopen (set_readyState s OPEN h))
      | _ => None
      end
  | SocketMessage s parsed =>
      match readyState <$> sockets h !! s with
      | Some OPEN | Some CLOSING => Some (onmessage parsed h)
      | _ => None
      end
  | SocketError s =>
      match readyState <$> sockets h !! s with
      | Some CLOSED | None => None
      | Some _ => Some (onerror h)
      end
  | SocketClose s =>
      match readyState <$> sockets h !! s with
      | Some CLOSED | None => None
      | Some _ => Some (onclose (set_readyState s CLOSED h))
      end
  | TimerFires t =>
      if pending t h then Some (connect (clearTimeout t h)) else None
  | CallConnect => Some (connect h)
  | CallDisconnect => Some (disconnect h)
  | CallSend m =>
      match sendMessage stringify m h with
      | Returned h' => Some h'
      | Threw => Some h
      end
  end.

Fixpoint run {A : Type} (stringify : A → option string)
    (evs : list (event A)) (h : hook) : option hook :=
  match evs with
  | [] => Some h
  | e :: evs' =>
      match step stringify e h with
      | Some h' => run stringify evs' h'
      | None => None
      end
  end.

(** The frames transmitted so far, socket by socket. *)
Definition transmitted (h : hook) : list (list string) := sent <$> sockets h.

(** *** Vocabulary of the statements about the hook *)

(** [wsRef.current && wsRef.current.readyState === WebSocket.OPEN] *)
Definition is_open (h : hook) : bool :=
  match wsRef h with
  | Some s =>
      match readyState <$> sockets h !! s with
      | Some OPEN => true
      | _ => false
      end
  | None => false
  end.

(** The state without what was written to the console. *)
Definition silent (h : hook) : hook :=
  mkHook (url_ok h) (isConnected h) (connectionStatus h) (wsRef h)
    (reconnectTimeoutRef h) (sockets h) (timers h) (next_timer h) [] (app h).

End Hook.

(** ** The monitor creation form ([pages/Monitors.jsx]) *)

Module MonitorForm.

(** *** [parseInt] *)

Definition code (c : ascii) : Z := Z.of_nat (nat_of_ascii c).

(** The white space [parseInt] skips, among the characters a [string] has. *)
Definition is_space (c : ascii) : bool :=
  let n := code c in ((9 <=? n) && (n <=? 13)) || (n =? 32).

Fixpoint skip_spaces (s : string) : string :=
  match s with
  | String c s' => if is_space c then skip_spaces s' else s
  | EmptyString => s
  end.

(** The value of [c] as a digit of the radix, if it is one. *)
Definition digit_value (radix : Z) (c : ascii) : option Z :=
  let n := code c in
  let v := if (48 <=? n) && (n <=? 57) then Some (n - 48)
           else if (97 <=? n) && (n <=? 122) then Some (n - 87)
           else if (65 <=? n) && (n <=? 90) then Some (n - 55)
           else None in
  match v with
  | Some d => if d <? radix then Some d else None
  | None => None
  end.

(** The longest prefix of digits, read as a number; [None] if it is empty. *)
Fixpoint parse_digits (radix : Z) (acc : option Z) (s : string) : option Z :=
  match s with
  | String c s' =>
      match digit_value radix c with
      | Some d => parse_digits radix (Some (radix * default 0 acc + d)) s'
      | None => acc
      end
  | EmptyString => acc
  end.

Definition parse_unsigned (s : string) : option Z :=
  match s with
  | String "0" (String "x" s') | String "0" (String "X" s') =>
      parse_digits 16 None s'
  | _ => parse_digits 10 None s
  end.

(** The sign in front of the digits. *)
Definition strip_sign (s : string) : Z * string :=
  match s with
  | String "-" s' => (-1, s')
  | String "+" s' => (1, s')
  | _ => (1, s)
  end.

(** [parseInt(s)] with no radix argument. *)
Definition parseInt (s : string) : value :=
  let '(sign, digits) := strip_sign (skip_spaces s) in
  match parse_unsigned digits with
  | Some n => VNum (sign * n)
  | None => VNaN
  end.

(** *** The form *)

Record formData : Type := mkFormData {
  name : string;
  url : string;
  monitor_type : string;
  css_selector : string;
  item_name : string;
  item_type : string;
  check_interval : value;
  notification_enabled : bool
}.

Definition initial_formData : formData :=
  {| name := ""; url := ""; monitor_type := "content"; css_selector := "";
     item_name := ""; item_type := "auto"; check_interval := VNum 300;
     notification_enabled := true |}.

(** The [onChange] handlers, one per field: [setFormData({...formData, k: v})]
    with [v] the field's [e.target.value] ([e.target.checked] for the check
    box), passed through [parseInt] for the interval. *)
Inductive edit : Type :=
  | EditName (v : string)
  | EditUrl (v : string)
  | EditMonitorType (v : string)
  | EditCssSelector (v : string)
  | EditItemName (v : string)
  | EditItemType (v : string)
  | EditCheckInterval (v : string)
  | EditNotificationEnabled (v : bool).

Definition onChange (e : edit) (fd : formData) : formData :=
  match e with
  | EditName v =>
      mkFormData v (url fd) (monitor_type fd) (css_selector fd) (item_name fd)
        (item_type fd) (check_interval fd) (notification_enabled fd)
  | EditUrl v =>
      mkFormData (name fd) v (monitor_type fd) (css_selector fd)
        (item_name fd) (item_type fd) (check_interval fd)
        (notification_enabled fd)
  | EditMonitorType v =>
      mkFormData (name fd) (url fd) v (css_selector fd) (item_name fd)
        (item_type fd) (check_interval fd) (notification_enabled fd)
  | EditCssSelector v =>
      mkFormData (name fd) (url fd) (monitor_type fd) v (item_name fd)
        (item_type fd) (check_interval fd) (notification_enabled fd)
  | EditItemName v =>
      mkFormData (name fd) (url fd) (monitor_type fd) (css_selector fd) v
        (item_type fd) (check_interval fd) (notification_enabled fd)
  | EditItemType v =>
      mkFormData (name fd) (url fd) (monitor_type fd) (css_selector fd)
        (item_name fd) v (check_interval fd) (notification_enabled fd)
  | EditCheckInterval v =>
      mkFormData (name fd) (url fd) (monitor_type fd) (css_selector fd)
        (item_name fd) (item_type fd) (parseInt v) (notification_enabled fd)
  | EditNotificationEnabled v =>
      mkFormData (name fd) (url fd) (monitor_type fd) (css_selector fd)
        (item_name fd) (item_type fd) (check_interval fd) v
  end.

Definition fill (edits : list edit) (fd : formData) : formData :=
  foldl (λ f e, onChange e f) fd edits.

(** The constraints the markup puts on the fields, which the browser checks
    before it dispatches the submit event.  A [required] field needs a value.
    The interval field is [<input type="number" min="60" max="86400">] and is
    not [required]: it shows the state ([value={formData.check_interval}]), a
    state that is not a number shows as an empty field, and an empty field
    satisfies [min] and [max]. *)
Definition required (v : string) : bool := negb (String.eqb v "").

Definition interval_field_valid (v : value) : bool :=
  match v with
  | VNum n => (60 <=? n) && (n <=? 86400)
  | _ => true
  end.

(** [valid_url] is the browser's check of a [type="url"] field. *)
Definition form_valid (valid_url : string → bool) (fd : formData) : bool :=
  required (name fd)
  && required (url fd) && valid_url (url fd)
  && (if String.eqb (monitor_type fd) "item_search"
      then required (item_name fd) else true)
  && interval_field_valid (check_interval fd).

(** How [await apiService.createMonitor(formData)] ends: the promise
    resolves, or it rejects with an error, of which [message] is the
    [error.message]. *)
Inductive response : Type :=
  | Resolved
  | Rejected (message : string).

(** The state of the page the handler writes to: [showCreateForm] and
    [formData]. *)
Record panel : Type := mkPanel {
  showCreateForm : bool;
  fields : formData
}.

Inductive page_effect : Type :=
  | LoadMonitors
  | LoadStats
  | ConsoleError (text : string)
  | Alert (text : string).

(** What [handleCreateMonitor] does after its [await], on the page as it is
    when the request ends.  When the request succeeded:
    [setShowCreateForm(false)], [setFormData] with the initial fields,
    [loadMonitors()] and [loadStats()].  When it failed, the [catch] branch:
    the error is logged and shown by [alert], and no state is written. *)
Definition settle (r : response) (p : panel) : panel * list page_effect :=
  match r with
  | Resolved =>
      ({| showCreateForm := false; fields := initial_formData |},
       [LoadMonitors; LoadStats])
  | Rejected message =>
      (p, [ConsoleError "Error creating monitor:";
           Alert ("Error creating monitor: " +:+ message)])
  end.

(** [handleCreateMonitor] is asynchronous: it passes [formData] as it is to
    [apiService.createMonitor] and waits.  The result is the request body
    and what the handler does once the request has ended. *)
Definition handleCreateMonitor (fd : formData)
    : formData * (response → panel → panel * list page_effect) :=
  (fd, settle).

(** Pressing "Create Monitor": when the form is valid the submit event
    reaches [handleCreateMonitor]; otherwise nothing is sent, there is
    nothing to wait for and the page stays as it is. *)
Definition submit (valid_url : string → bool) (fd : formData)
    : option formData * (response → panel → panel * list page_effect) :=
  if form_valid valid_url fd
  then let '(body, afterwards) := handleCreateMonitor fd in
       (Some body, afterwards)
  else (None, λ _ p, (p, [])).

(** [parseInt] yields an integer or [NaN]. *)
Definition number_or_nan (v : value) : Prop :=
  (∃ n, v = VNum n) ∨ v = VNaN.

(** An interval between the floor and the ceiling of the form. *)
Definition within_bounds (v : value) : Prop :=
  match v with
  | VNum n => 60 ≤ n ≤ 86400
  | _ => False
  end.

End MonitorForm.

(** ** The notification list (the [Notifications] page) *)

Module NotificationList.

(** [message.length > 80 ? `${message.substring(0, 80)}...` : message] *)
Definition preview (message : string) : string :=
  if (80 <? String.length message)%nat
  then substring message 0 80 +:+ "..."
  else message.

End NotificationList.

(** ** The change detector *)

Module ChangeDetector.

(** Modelled from the spec: the back end, which holds the change detector,
    is missing from the sources.  The four strategies of a monitor. *)
Inductive strategy : Type := content | price | selector | item_search.

(** Modelled from the spec: the result of [detect],
    [Unchanged | Changed{old, new, diffSummary}]. *)
Inductive detection : Type :=
  | Unchanged
  | Changed (old new diffSummary : string).

Definition is_digit (c : ascii) : bool :=
  let n := Z.of_nat (nat_of_ascii c) in (48 <=? n) && (n <=? 57).

Definition digit_of (c : ascii) : Z := Z.of_nat (nat_of_ascii c) - 48.

Definition is_blank (c : ascii) : bool :=
  let n := Z.of_nat (nat_of_ascii c) in
  ((9 <=? n) && (n <=? 13)) || (n =? 32).

Fixpoint skip_blanks (s : string) : string :=
  match s with
  | String c s' => if is_blank c then skip_blanks s' else s
  | EmptyString => s
  end.

Definition starts_with (c : ascii) (s : string) : bool :=
  match s with
  | String c' _ => Ascii.eqb c' c
  | EmptyString => false
  end.

(** Modelled from the spec: the back end's price parser is missing from the
    sources.  "Parse both as numbers; treat formatting differences, e.g.
    $1,200.00 vs 1200, as equal".  A number is written as in the spec's
    example: an optional sign, an optional currency sign, the whole part in
    digits, either plain or in groups of three set off by commas, and
    optionally a point and decimals; blanks may stand around it and after
    the sign and the currency sign.  The currency sign, the grouping and
    trailing zeros are the formatting; a text of any other shape (letters,
    a second point, a comma elsewhere) is not a number.

    [digits] reads the run of digits at the head of [s] in base ten onto
    [acc]; with the number read come how many digits it had and the text
    after them. *)
Fixpoint digits (s : string) (acc : Z) (count : nat) : Z * nat * string :=
  match s with
  | String c s' =>
      if is_digit c then digits s' (10 * acc + digit_of c) (S count)
      else (acc, count, s)
  | EmptyString => (acc, count, s)
  end.

(** Modelled from the spec: the groups, each a comma and three digits, at
    the head of [s], read onto [acc]; with the text after them. *)
Fixpoint groups (s : string) (acc : Z) : Z * string :=
  match s with
  | String comma (String a (String b (String c s'))) =>
      if Ascii.eqb comma "," && is_digit a && is_digit b && is_digit c
      then groups s'
             (10 * (10 * (10 * acc + digit_of a) + digit_of b) + digit_of c)
      else (acc, s)
  | _ => (acc, s)
  end.

(** Modelled from the spec: the whole part, at least one digit; when a comma
    follows the first digits, they are at most three and groups follow. *)
Definition integer_part (s : string) : option (Z * string) :=
  match digits s 0 0 with
  | (_, O, _) => None
  | (n, count, rest) =>
      if starts_with "," rest
      then if (count <=? 3)%nat then Some (groups rest n) else None
      else Some (n, rest)
  end.

(** Modelled from the spec: the decimals, a point and at least one digit,
    read onto the whole part [n]; the result is the number without its
    point, how many decimals it has, and the text after them. *)
Definition fraction (s : string) (n : Z) : option (Z * nat * string) :=
  match s with
  | String c s' =>
      if Ascii.eqb c "."
      then match digits s' n 0 with
           | (_, O, _) => None
           | (m, scale, rest) => Some (m, scale, rest)
           end
      else Some (n, O, s)
  | EmptyString => Some (n, O, s)
  end.

(** Modelled from the spec: a number without sign, [mantissa / 10 ^ scale],
    with nothing but blanks after it. *)
Definition unsigned (s : string) : option (Z * nat) :=
  match integer_part s with
  | Some (n, s') =>
      match fraction s' n with
      | Some (m, scale, s'') =>
          match skip_blanks s'' with
          | EmptyString => Some (m, scale)
          | String _ _ => None
          end
      | None => None
      end
  | None => None
  end.

Definition strip_sign (s : string) : bool * string :=
  match s with
  | String c s' =>
      if Ascii.eqb c "-" then (true, s')
      else if Ascii.eqb c "+" then (false, s')
      else (false, s)
  | EmptyString => (false, s)
  end.

(** [s] without its prefix [p], if it starts with [p]. *)
Fixpoint strip_prefix (p s : string) : option string :=
  match p, s with
  | EmptyString, _ => Some s
  | String a p', String b s' =>
      if Ascii.eqb a b then strip_prefix p' s' else None
  | String _ _, EmptyString => None
  end.

(** Modelled from the spec: the currency signs, those of the price pattern
    of the front end. *)
Definition currency_signs : list string := ["$"; "€"; "£"; "¥"].

Definition strip_currency (s : string) : string :=
  foldr (λ sign otherwise,
           match strip_prefix sign s with
           | Some rest => rest
           | None => otherwise
           end) s currency_signs.

(** Modelled from the spec: the numeric reading of a price text,
    [mantissa / 10 ^ scale], or [None] when the text is not a number. *)
Definition parse_price (s : string) : option (Z * nat) :=
  let '(negative, s') := strip_sign (skip_blanks s) in
  match unsigned (skip_blanks (strip_currency s')) with
  | Some (m, scale) => Some (if negative then - m else m, scale)
  | None => None
  end.

(** Modelled from the spec: numeric equality of two parsed prices. *)
Definition same_amount (a b : Z * nat) : bool :=
  fst a * 10 ^ Z.of_nat (snd b) =? fst b * 10 ^ Z.of_nat (snd a).

(** Modelled from the spec: the equality rule of the change detector, missing
    from the sources.  "Exact string equality after normalization, except for
    price, where equality is numeric"; two texts that are not both numbers
    are compared as strings. *)
Definition same_value (st : strategy) (old new : string) : bool :=
  match st with
  | price =>
      match parse_price old, parse_price new with
      | Some a, Some b => same_amount a b
      | _, _ => String.eqb old new
      end
  | _ => String.eqb old new
  end.

(** Modelled from the spec: the diff summary, "a short human-readable string
    (e.g., old→new) capped in length"; the cap is a parameter. *)
Definition diffSummary (cap : nat) (old new : string) : string :=
  String.substring 0 cap (old +:+ " -> " +:+ new).

(** Modelled from the spec: [detect(monitor, observedValue)], missing from the
    sources.  [previous] is the monitor's stored [current_value]; a first
    observation is the baseline and is not reported as a change. *)
Definition detect (cap : nat) (st : strategy) (previous : option string)
    (observed : string) : detection :=
  match previous with
  | None => Unchanged
  | Some old =>
      if same_value st old observed then Unchanged
      else Changed old observed (diffSummary cap old observed)
  end.

(** *** Amounts and the ways to write them *)

Inductive digit : Type := D0 | D1 | D2 | D3 | D4 | D5 | D6 | D7 | D8 | D9.

Definition digit_char (d : digit) : ascii :=
  match d with
  | D0 => "0" | D1 => "1" | D2 => "2" | D3 => "3" | D4 => "4"
  | D5 => "5" | D6 => "6" | D7 => "7" | D8 => "8" | D9 => "9"
  end%char.

Definition digit_value (d : digit) : Z :=
  match d with
  | D0 => 0 | D1 => 1 | D2 => 2 | D3 => 3 | D4 => 4
  | D5 => 5 | D6 => 6 | D7 => 7 | D8 => 8 | D9 => 9
  end.













(** The digits [ds] in front of [rest]. *)
Fixpoint text (ds : list digit) (rest : string) : string :=
  match ds with
  | [] => rest
  | d :: ds' => String (digit_char d) (text ds' rest)
  end.






End ChangeDetector.

(** ** The rest of the store ([appStore.js]) *)

Module StoreActions.

Import Store.

(** [{ ...slice, items, loading: false, error: null,
       pagination: pagination || slice.pagination }], with [pagination]
    defaulting to [null]. *)
Definition set_items (its : list obj) (p : option pagination) (s : slice)
    : slice :=
  {| items := its; loading := false; error := VNull;
     slice_pagination := default (slice_pagination s) p |}.

(** [{ ...slice, loading }] *)
Definition set_loading (b : bool) (s : slice) : slice :=
  {| items := items s; loading := b; error := error s;
     slice_pagination := slice_pagination s |}.

(** [{ ...slice, error, loading: false }] *)
Definition set_error (e : value) (s : slice) : slice :=
  {| items := items s; loading := false; error := e;
     slice_pagination := slice_pagination s |}.

Definition setSummariesLoading (b : bool) : store → store :=
  set_summaries (set_loading b).
Definition setSummariesError (e : value) : store → store :=
  set_summaries (set_error e).
Definition setSummaries (its : list obj) (p : option pagination)
    : store → store :=
  set_summaries (set_items its p).

Definition setMonitorsLoading (b : bool) : store → store :=
  set_monitors (set_loading b).
Definition setMonitorsError (e : value) : store → store :=
  set_monitors (set_error e).
Definition setMonitors (its : list obj) (p : option pagination)
    : store → store :=
  set_monitors (set_items its p).

Definition setNotificationsLoading (b : bool) : store → store :=
  set_notifications (set_loading b).
Definition setNotificationsError (e : value) : store → store :=
  set_notifications (set_error e).
Definition setNotifications (its : list obj) (p : option pagination)
    : store → store :=
  set_notifications (set_items its p).

(** [resetStore()] *)
Definition resetStore (st : store) : store := initial_store.

(** What [partialize] hands to the persistence layer: the two persisted
    fields of [ui], the first 10 summaries, all monitors, the first 50
    notifications, each list with its pagination, and the statistics. *)
Record persisted : Type := mkPersisted {
  p_sidebarOpen : bool;
  p_currentUrl : string;
  p_summaries : list obj * pagination;
  p_monitors : list obj * pagination;
  p_notifications : list obj * pagination;
  p_stats : stats_state
}.

(** [items.slice(0, n)] *)
Definition slice_from_start (n : nat) (l : list obj) : list obj := take n l.

Definition partialize (st : store) : persisted :=
  {| p_sidebarOpen := sidebarOpen (ui st);
     p_currentUrl := currentUrl (ui st);
     p_summaries := (slice_from_start 10 (items (summaries st)),
                     slice_pagination (summaries st));
     p_monitors := (items (monitors st), slice_pagination (monitors st));
     p_notifications := (slice_from_start 50 (items (notifications st)),
                         slice_pagination (notifications st));
     p_stats := stats st |}.

(** *** Vocabulary *)

(** No item of the collection has this id. *)
Definition fresh (id : value) (s : slice) : Prop :=
  ∀ x, x ∈ items s → strict_eq (get x "id") id = false.

(** The ids of a list of items, in order. *)
Definition ids (l : list obj) : list value := (λ x, get x "id") <$> l.

End StoreActions.

(** ** The store's own dispatcher ([handleWebSocketMessage]) *)

Module StoreSocket.

Import Store Hook.

(** The double quote character. *)
Definition quote : string := String "034" EmptyString.

(** [{ type: 'info', title, message }] *)
Definition info_toast (title : string) (message : value) : obj :=
  <["type" := VStr "info"]>
    (<["title" := VStr title]> (<["message" := message]> ∅)).

(** [handleWebSocketMessage(message)]: the second component is what it
    writes to the console. *)
Definition handleWebSocketMessage (m : message) (st : store)
    : store * list string :=
  let type := msg_type m in
  let data := msg_data m in
  if strict_eq type (VStr "notification")
  then (showToast (info_toast "New Notification" (get data "title"))
          (addNotification data st), [])
  else if strict_eq type (VStr "monitor_update")
  then (showToast
          (info_toast "Monitor Update"
             (VStr ("Monitor " +:+ quote +:+ to_string (get data "name")
                    +:+ quote +:+ " has been updated")))
          (updateMonitor (get data "id") data st), [])
  else if strict_eq type (VStr "system_status")
  then (st, [])
  else (st, ["Unknown WebSocket message type:"]).

End StoreSocket.

(** ** Vocabulary of the statements about the rest of the store *)

Module StoreSpec.

Import Store StoreActions.


End StoreSpec.

(** ** Vocabulary of the statements about the connection life cycle *)

Module HookSpec.

Import Hook.

(** The order in which a socket goes through its states. *)
Definition rank (r : ready_state) : nat :=
  match r with
  | CONNECTING => 0
  | OPEN => 1
  | CLOSING => 2
  | CLOSED => 3
  end.

(** The references of the hook point at things that exist: the current
    socket is one of the sockets created; every pending timeout has a
    positive identifier that was handed out, no identifier is pending
    twice, and its delay is 3000 ms; the remembered timeout is an identifier
    that was handed out; identifiers start at 1. *)
Definition well_formed (h : hook) : Prop :=
  (∀ s, wsRef h = Some s → (s < length (sockets h))%nat) ∧
  (∀ t d, (t, d) ∈ timers h → (1 ≤ t < next_timer h)%nat ∧ d = 3000) ∧
  NoDup (timers h).*1 ∧
  (∀ t, reconnectTimeoutRef h = Some t → (1 ≤ t < next_timer h)%nat) ∧
  (1 ≤ next_timer h)%nat.

(** The two pieces of React state agree: the status is ['connected'] only
    while [isConnected] is true. *)
Definition status_consistent (h : hook) : Prop :=
  connectionStatus h = connected → isConnected h = true.

(** Socket [k'] is a later state of socket [k]. *)
Definition later (k k' : socket) : Prop :=
  (rank (readyState k) ≤ rank (readyState k'))%nat ∧
  sent k `prefix_of` sent k' ∧
  (readyState k = CLOSING ∨ readyState k = CLOSED → sent k' = sent k).

(** Every socket of [h] is still there in [h'], in a later state. *)
Definition grows (h h' : hook) : Prop :=
  ∀ s k, sockets h !! s = Some k →
         ∃ k', sockets h' !! s = Some k' ∧ later k k'.

(** The hook of a malformed URL: nothing was ever created. *)
Definition idle (h : hook) : Prop :=
  url_ok h = false ∧ sockets h = [] ∧ timers h = [] ∧ wsRef h = None ∧
  reconnectTimeoutRef h = None ∧ isConnected h = false ∧
  connectionStatus h ≠ connected.

End HookSpec.

(** ** The pages: what they compute for display and on user actions *)

Module Pages.

(** *** [pages/Monitors.jsx] *)

(** [formatInterval(seconds)] for an integer number of seconds;
    [Math.floor(a / b)] is the integer quotient rounded down. *)
Definition formatInterval (seconds : Z) : string :=
  if seconds <? 60 then pretty seconds +:+ "s"
  else if seconds <? 3600 then pretty (seconds / 60) +:+ "m"
  else pretty (seconds / 3600) +:+ "h".

(** What [handleCheckAllMonitors] does, in order. *)
Inductive check_effect : Type :=
  | Alert (text : string)
  | Confirm (count : nat)
  | CheckMonitor (id : value)
  | CheckFailed
  | LoadMonitors
  | LoadStats.

(** The loop [for (const monitor of activeMonitors)]: one request per
    monitor, a failed one is logged and the loop goes on.  [outcome k] tells
    whether the [k]-th request succeeds. *)
Fixpoint check_each (outcome : nat → bool) (k : nat) (l : list obj)
    : list check_effect :=
  match l with
  | [] => []
  | monitor :: rest =>
      CheckMonitor (get monitor "id")
      :: (if outcome k then [] else [CheckFailed])
      ++ check_each outcome (S k) rest
  end.

(** [handleCheckAllMonitors()]; [confirmed] is the user's answer to
    [window.confirm]. *)
Definition handleCheckAllMonitors (confirmed : bool) (outcome : nat → bool)
    (monitors : list obj) : list check_effect :=
  let activeMonitors :=
    List.filter (λ m, truthy (get m "is_active")) monitors in
  if (length activeMonitors =? 0)%nat
  then [Alert "No active monitors to check"]
  else Confirm (length activeMonitors)
       :: (if confirmed
           then check_each outcome 0 activeMonitors
                ++ [LoadMonitors; LoadStats]
           else []).

(** The requests among the effects, in order. *)
Definition checked (effects : list check_effect) : list value :=
  omap (λ e, match e with CheckMonitor id => Some id | _ => None end) effects.

(** *** The [Notifications] page: the selection *)

(** SameValueZero, the equality of [Array.prototype.includes]: as [===],
    but [NaN] equals itself. *)
Definition same_value_zero (a b : value) : bool :=
  match a, b with
  | VNaN, VNaN => true
  | _, _ => strict_eq a b
  end.

(** [prev.includes(id)] *)
Definition array_includes (l : list value) (id : value) : bool :=
  existsb (λ x, same_value_zero x id) l.

(** [handleSelectNotification(id)]:
    [prev.includes(id) ? prev.filter(x => x !== id) : [...prev, id]] *)
Definition handleSelectNotification (id : value) (prev : list value)
    : list value :=
  if array_includes prev id
  then List.filter (λ x, negb (strict_eq x id)) prev
  else prev ++ [id].

(** [handleSelectAll()] *)
Definition handleSelectAll (selected : list value) (notifications : list obj)
    : list value :=
  if (length selected =? length notifications)%nat
  then []
  else (λ n, get n "id") <$> notifications.

(** *** [pages/Dashboard.jsx] and [pages/Summaries.jsx]: [truncateText] *)

(** The text handed to [truncateText] is a string or is missing ([None]:
    [null] or [undefined]). *)

(** Dashboard: [if (!text) return ''; return text.length > maxLength ?
    text.substring(0, maxLength) + '...' : text]. *)
Definition truncateText_dashboard (text : option string) (maxLength : nat)
    : string :=
  match text with
  | None => ""
  | Some t =>
      if String.eqb t "" then ""
      else if (maxLength <? String.length t)%nat
      then substring t 0 maxLength +:+ "..."
      else t
  end.

(** Summaries: [if (text.length <= maxLength) return text; return
    text.substring(0, maxLength) + '...']; reading [length] of a missing
    text throws ([None]). *)
Definition truncateText_summaries (text : option string) (maxLength : nat)
    : option string :=
  match text with
  | None => None
  | Some t =>
      Some (if (String.length t <=? maxLength)%nat then t
            else substring t 0 maxLength +:+ "...")
  end.

(** *** [formatDate], as the pages define it *)

(** The part of [formatDate] after the date was parsed: [diffMs] is
    [now - date] in milliseconds; [None] stands for
    [date.toLocaleDateString()]. *)
Definition relative_time (diffMs : Z) : option string :=
  let diffMins := diffMs / 60000 in
  let diffHours := diffMs / 3600000 in
  let diffDays := diffMs / 86400000 in
  if diffMins <? 1 then Some "Just now"
  else if diffMins <? 60 then Some (pretty diffMins +:+ "m ago")
  else if diffHours <? 24 then Some (pretty diffHours +:+ "h ago")
  else if diffDays <? 7 then Some (pretty diffDays +:+ "d ago")
  else None.

(** [formatDate(dateString)] of the Monitors page.  [parse] is
    [new Date(s).getTime()], [None] when the date is invalid; [now] is the
    time of the call; [locale] is [toLocaleDateString]. *)
Definition formatDate_monitors (parse : string → option Z)
    (locale : Z → string) (now : Z) (dateString : option string) : string :=
  match dateString with
  | None => "Never"
  | Some s =>
      if String.eqb s "" then "Never"
      else match parse (s +:+ "Z") with
           | None => "Invalid date"
           | Some date =>
               match relative_time (now - date) with
               | Some text => text
               | None => locale date
               end
           end
  end.

(** [formatDate(dateString)] of the Notifications, Dashboard and Summaries
    pages: no test for an invalid date, whose comparisons are all false, so
    that it falls through to [toLocaleDateString] ([invalid] is what that
    returns for an invalid date). *)
Definition formatDate_pages (parse : string → option Z)
    (locale : Z → string) (invalid : string) (now : Z)
    (dateString : option string) : string :=
  match dateString with
  | None => "Unknown"
  | Some s =>
      if String.eqb s "" then "Unknown"
      else match parse (s +:+ "Z") with
           | None => invalid
           | Some date =>
               match relative_time (now - date) with
               | Some text => text
               | None => locale date
               end
           end
  end.

End Pages.

(** ** Vocabulary of the statements about the form *)

Module FormSpec.

Import MonitorForm.

(** A text made of decimal digits only. *)
Fixpoint decimal (s : string) : bool :=
  match s with
  | EmptyString => true
  | String c s' =>
      match digit_value 10 c with
      | Some _ => decimal s'
      | None => false
      end
  end.

(** The integers a double holds exactly. *)
Definition safe_integer (n : Z) : Prop := - 2 ^ 53 ≤ n ≤ 2 ^ 53.

End FormSpec.

(** ** The value shown on a monitor card ([formatCurrentValue]) *)

Module CurrentValue.

(** The texts of this function go through regular expressions with
    character classes beyond Latin-1, so a string is the list of its UTF-16
    code units here. *)
Abbreviation ustring := (list N).

(** The code units of a literal of the source. *)
Definition units (s : string) : ustring :=
  (λ c, N_of_ascii c) <$> list_ascii_of_string s.

(** [[\$€£¥]] *)
Definition is_currency (u : N) : bool :=
  ((u =? 36) || (u =? 8364) || (u =? 163) || (u =? 165))%N.

(** [\s], which is also what [trim] removes: white space and line
    terminators. *)
Definition is_ws (u : N) : bool :=
  (((9 <=? u) && (u <=? 13)) || (u =? 32) || (u =? 160) || (u =? 5760)
   || ((8192 <=? u) && (u <=? 8202)) || (u =? 8232) || (u =? 8233)
   || (u =? 8239) || (u =? 8287) || (u =? 12288) || (u =? 65279))%N.

(** [\d] *)
Definition is_d (u : N) : bool := ((48 <=? u) && (u <=? 57))%N.

(** [[\d,]] *)
Definition is_dc (u : N) : bool := (is_d u || (u =? 44))%N.

(** [\.], [<], [>] and [[^>]] *)
Definition is_dot (u : N) : bool := (u =? 46)%N.
Definition is_lt (u : N) : bool := (u =? 60)%N.
Definition is_gt (u : N) : bool := (u =? 62)%N.
Definition not_gt (u : N) : bool := negb (u =? 62)%N.

(** The patterns of the source are sequences of character classes, each
    taken once or under [?], [*] or [+]. *)
Inductive quantifier : Type := One | Optional | Many0 | Many1.

Definition pattern : Type := list ((N → bool) * quantifier).

(** Matching at the start of a text, as a backtracking matcher does.  The
    result is the text matched and the text left; [k] matches the rest of
    the pattern. *)

(** One character of the class, then the rest. *)
Definition once (p : N → bool) (k : ustring → option (ustring * ustring))
    (l : ustring) : option (ustring * ustring) :=
  match l with
  | u :: l' =>
      if p u
      then match k l' with
           | Some (m, r) => Some (u :: m, r)
           | None => None
           end
      else None
  | [] => None
  end.

(** As many characters of the class as possible, then the rest; when the
    rest fails, one character fewer. *)
Fixpoint star (p : N → bool) (k : ustring → option (ustring * ustring))
    (l : ustring) : option (ustring * ustring) :=
  match l with
  | u :: l' =>
      if p u
      then match star p k l' with
           | Some (m, r) => Some (u :: m, r)
           | None => k l
           end
      else k l
  | [] => k l
  end.

Fixpoint match_here (pat : pattern) (l : ustring) {struct pat}
    : option (ustring * ustring) :=
  match pat with
  | [] => Some ([], l)
  | (p, q) :: rest =>
      match q with
      | One => once p (match_here rest) l
      | Optional =>
          match once p (match_here rest) l with
          | Some x => Some x
          | None => match_here rest l
          end
      | Many0 => star p (match_here rest) l
      | Many1 => once p (star p (match_here rest)) l
      end
  end.

(** [text.match(pattern)]: the match at the leftmost position that has
    one. *)
Fixpoint search (pat : pattern) (l : ustring) : option ustring :=
  match match_here pat l with
  | Some (m, _) => Some m
  | None =>
      match l with
      | _ :: l' => search pat l'
      | [] => None
      end
  end.

(** [text.replace(pattern, '')] with the [g] flag: every match is taken
    out, from left to right.  [fuel] bounds the number of steps; the length
    of the text is enough. *)
Fixpoint remove_all (fuel : nat) (pat : pattern) (l : ustring) : ustring :=
  match fuel with
  | O => l
  | S fuel' =>
      match match_here pat l with
      | Some (_ :: _, r) => remove_all fuel' pat r
      | _ =>
          match l with
          | u :: l' => u :: remove_all fuel' pat l'
          | [] => []
          end
      end
  end.

(** [/[\$€£¥]?\s*[\d,]+\.?\d*/] *)
Definition price_pattern : pattern :=
  [(is_currency, Optional); (is_ws, Many0); (is_dc, Many1);
   (is_dot, Optional); (is_d, Many0)].

(** [/[\d,]+\.?\d*/] *)
Definition number_pattern : pattern :=
  [(is_dc, Many1); (is_dot, Optional); (is_d, Many0)].

(** [/<[^>]*>/g] *)
Definition tag_pattern : pattern :=
  [(is_lt, One); (not_gt, Many0); (is_gt, One)].

(** [value.replace(/<[^>]*>/g, '')] *)
Definition strip_tags (l : ustring) : ustring :=
  remove_all (length l) tag_pattern l.

Fixpoint drop_ws (l : ustring) : ustring :=
  match l with
  | u :: l' => if is_ws u then drop_ws l' else l
  | [] => []
  end.

(** [text.trim()] *)
Definition trim (l : ustring) : ustring :=
  reverse (drop_ws (reverse (drop_ws l))).

(** [text.length > 100 ? text.substring(0, 100) + '...' : text] *)
Definition cap100 (l : ustring) : ustring :=
  if (100 <? length l)%nat then take 100 l ++ units "..." else l.

(** [formatCurrentValue(monitor)], from the monitor's [monitor_type],
    [item_name] and [current_value]; [None] is a missing ([null] or
    [undefined]) property. *)
Definition formatCurrentValue (monitor_type : ustring)
    (item_name current_value : option ustring) : ustring :=
  match current_value with
  | None | Some [] => units "No data yet"
  | Some value =>
      let by_item :=
        match item_name with
        | Some ((_ :: _) as name) =>
            if bool_decide (monitor_type = units "item_search")
            then Some (name ++ units ": " ++ value)
            else None
        | _ => None
        end in
      match by_item with
      | Some shown => shown
      | None =>
          let by_price :=
            if bool_decide (monitor_type = units "price")
            then match search price_pattern value with
                 | Some m => Some m
                 | None => search number_pattern value
                 end
            else None in
          match by_price with
          | Some shown => shown
          | None =>
              let cleanText := trim (strip_tags value) in
              if (bool_decide (monitor_type = units "content")
                  || bool_decide (monitor_type = units "selector"))
                 && (0 <? length cleanText)%nat
              then cap100 cleanText
              else cap100 value
          end
      end
  end.

(** *** Vocabulary *)

(** No [<] of the text is followed, anywhere later, by a [>]: the text
    holds no tag. *)
Definition tag_free (l : ustring) : Prop :=
  ∀ i j, (i < j)%nat → l !! i = Some 60%N → l !! j ≠ Some 62%N.

(** [m] is a piece of [l]. *)
Definition piece (m l : ustring) : Prop :=
  ∃ before after, l = before ++ m ++ after.

(** A matcher [k] splits its input when what it returns, the matched text
    and the rest, make up the input again. *)
Definition splits (k : ustring → option (ustring * ustring)) : Prop :=
  ∀ l m r, k l = Some (m, r) → l = m ++ r.

End CurrentValue.

(** * Properties *)

(** ** Objects *)

Section objects.

Import Store.

Lemma get_lookup (o : obj) (k : string) (v : value) :
  o !! k = Some v → get o k = v.
Proof. unfold get. by intros ->. Qed.

Lemma spread_lookup_new (a b : obj) (k : string) (v : value) :
  b !! k = Some v → spread a b !! k = Some v.
Proof. intros H. unfold spread. by apply lookup_union_Some_l. Qed.

Lemma spread_lookup_old (a b : obj) (k : string) :
  b !! k = None → spread a b !! k = a !! k.
Proof. intros H. unfold spread. by apply lookup_union_r. Qed.

Lemma mark_read_is_read (now : string) (n : obj) :
  mark_read now n !! "is_read" = Some (VBool true).
Proof. unfold mark_read. by simplify_map_eq. Qed.

Lemma mark_read_read_at (now : string) (n : obj) :
  mark_read now n !! "read_at" = Some (VStr now).
Proof. unfold mark_read. by simplify_map_eq. Qed.

Lemma mark_read_other (now : string) (n : obj) (f : string) :
  f ≠ "is_read" → f ≠ "read_at" → mark_read now n !! f = n !! f.
Proof. intros ? ?. unfold mark_read. by simplify_map_eq. Qed.

End objects.

(** ** Marking notifications as read *)

Section marking.

Import Store.

Variable clock : nat → string.

Lemma mark_read_marked (now : string) (n : obj) : marked n (mark_read now n).
Proof.
  split; [split; [apply mark_read_is_read|]|].
  - eexists; apply mark_read_read_at.
  - intros f ? ?. by apply mark_read_other.
Qed.

Lemma mark_matching_length (id : value) (l : list obj) :
  ∀ k, length (mark_matching clock id k l).1 = length l.
Proof.
  induction l as [|n rest IH]; intros k; simpl; [done|].
  destruct (strict_eq (get n "id") id).
  - specialize (IH (S k)).
    destruct (mark_matching clock id (S k) rest); simpl in *. by f_equal.
  - specialize (IH k).
    destruct (mark_matching clock id k rest); simpl in *. by f_equal.
Qed.

Lemma mark_matching_lookup (id : value) (l : list obj) :
  ∀ k i n, l !! i = Some n →
    ∃ n', (mark_matching clock id k l).1 !! i = Some n' ∧
          if strict_eq (get n "id") id then marked n n' else n' = n.
Proof.
  induction l as [|x rest IH]; intros k i n Hi; [done|].
  simpl. destruct (strict_eq (get x "id") id) eqn:Hx.
  - destruct i as [|i]; simpl in Hi.
    + injection Hi as <-.
      destruct (mark_matching clock id (S k) rest); simpl.
      eexists; split; [done|]. rewrite Hx. apply mark_read_marked.
    + destruct (IH (S k) i n Hi) as (n' & Hn' & Hm).
      destruct (mark_matching clock id (S k) rest); simpl in *. eauto.
  - destruct i as [|i]; simpl in Hi.
    + injection Hi as <-.
      destruct (mark_matching clock id k rest); simpl.
      eexists; split; [done|]. by rewrite Hx.
    + destruct (IH k i n Hi) as (n' & Hn' & Hm).
      destruct (mark_matching clock id k rest); simpl in *. eauto.
Qed.

Lemma mark_every_length (l : list obj) :
  ∀ k, length (mark_every clock k l).1 = length l.
Proof.
  induction l as [|n rest IH]; intros k; simpl; [done|].
  specialize (IH (S k)).
  destruct (mark_every clock (S k) rest); simpl in *. by f_equal.
Qed.

Lemma mark_every_lookup (l : list obj) :
  ∀ k i n, l !! i = Some n →
    ∃ n', (mark_every clock k l).1 !! i = Some n' ∧ marked n n'.
Proof.
  induction l as [|x rest IH]; intros k i n Hi; [done|].
  simpl. destruct i as [|i]; simpl in Hi.
  - injection Hi as <-.
    destruct (mark_every clock (S k) rest); simpl.
    eexists; split; [done|]. apply mark_read_marked.
  - destruct (IH (S k) i n Hi) as (n' & Hn' & Hm).
    destruct (mark_every clock (S k) rest); simpl in *. eauto.
Qed.

(** C2: [markNotificationRead(id)] keeps the number and the order of the
    notifications; a notification whose id is not [id] is unchanged; one
    whose id is [id] gets [is_read = true] and a [read_at] time stamp and
    keeps every other field; nothing else in the store changes. *)
Theorem markNotificationRead_frame (id : value) (k : nat) (st : store) :
  let st' := (markNotificationRead clock id k st).1 in
  length (items (notifications st')) = length (items (notifications st)) ∧
  (∀ i n, items (notifications st) !! i = Some n →
     ∃ n', items (notifications st') !! i = Some n' ∧
           if strict_eq (get n "id") id then marked n n' else n' = n) ∧
  same_but_notification_items st st'.
Proof.
  unfold markNotificationRead.
  pose proof (mark_matching_length id (items (notifications st)) k) as Hlen.
  pose proof (mark_matching_lookup id (items (notifications st)) k) as Hlk.
  destruct (mark_matching clock id k (items (notifications st)))
    as [its k']; simpl in *.
  split; [done|]. split; [done|]. by repeat split.
Qed.

Lemma mark_every_all (l : list obj) :
  ∀ k, Forall read_and_stamped (mark_every clock k l).1.
Proof.
  induction l as [|x rest IH]; intros k; simpl; [constructor|].
  specialize (IH (S k)).
  destruct (mark_every clock (S k) rest); simpl in *.
  constructor; [apply mark_read_marked | done].
Qed.

(** C6: after [markAllNotificationsRead()] every notification has
    [is_read = true] and a string in [read_at]; the list has the same
    length, and the notification at each position is the old one with
    these two fields set and every other field (its id among them)
    unchanged; nothing else in the store changes; applying the action a
    second time again leaves every notification read and stamped. *)
Theorem markAllNotificationsRead_all_read (k : nat) (st : store) :
  let st1 := (markAllNotificationsRead clock k st).1 in
  let k1 := (markAllNotificationsRead clock k st).2 in
  let st2 := (markAllNotificationsRead clock k1 st1).1 in
  Forall read_and_stamped (items (notifications st1)) ∧
  length (items (notifications st1)) = length (items (notifications st)) ∧
  (∀ i n, items (notifications st) !! i = Some n →
     ∃ n', items (notifications st1) !! i = Some n' ∧ marked n n') ∧
  same_but_notification_items st st1 ∧
  Forall read_and_stamped (items (notifications st2)) ∧
  length (items (notifications st2)) = length (items (notifications st)) ∧
  (∀ i n, items (notifications st1) !! i = Some n →
     ∃ n', items (notifications st2) !! i = Some n' ∧ marked n n') ∧
  same_but_notification_items st st2.
Proof.
  unfold markAllNotificationsRead.
  pose proof (mark_every_all (items (notifications st)) k) as Hall.
  pose proof (mark_every_length (items (notifications st)) k) as Hlen.
  pose proof (mark_every_lookup (items (notifications st)) k) as Hlk.
  destruct (mark_every clock k (items (notifications st)))
    as [its k1]; simpl in *.
  pose proof (mark_every_all its k1) as Hall2.
  pose proof (mark_every_length its k1) as Hlen2.
  pose proof (mark_every_lookup its k1) as Hlk2.
  destruct (mark_every clock k1 its) as [its2 k2]; simpl in *.
  repeat split; try done. congruence.
Qed.

End marking.

(** ** Updating a monitor *)

Section updating.

Import Store.

Lemma update_item_spec (id : value) (updates m : obj) :
  if strict_eq (get m "id") id
  then merged updates m (update_item id updates m)
  else update_item id updates m = m.
Proof.
  unfold update_item. destruct (strict_eq (get m "id") id); [|done].
  split.
  - intros f v Hf. by apply spread_lookup_new.
  - intros f Hf. by apply spread_lookup_old.
Qed.

Lemma update_items_no_match (id : value) (updates : obj) (l : list obj) :
  (∀ m, m ∈ l → strict_eq (get m "id") id = false) →
  update_item id updates <$> l = l.
Proof.
  induction l as [|x rest IH]; intros Hno; [done|].
  rewrite fmap_cons, IH.
  - unfold update_item. rewrite Hno; [done|]. by left.
  - intros m Hm. apply Hno. by right.
Qed.

Lemma updateMonitor_items (id : value) (updates : obj) (st : store) :
  items (monitors (updateMonitor id updates st))
  = update_item id updates <$> items (monitors st).
Proof. done. Qed.

Lemma updateMonitor_length (id : value) (updates : obj) (st : store) :
  length (items (monitors (updateMonitor id updates st)))
  = length (items (monitors st)).
Proof. by rewrite updateMonitor_items, length_fmap. Qed.

Lemma updateMonitor_lookup (id : value) (updates : obj) (st : store) :
  ∀ i m, items (monitors st) !! i = Some m →
    ∃ m', items (monitors (updateMonitor id updates st)) !! i = Some m' ∧
          if strict_eq (get m "id") id then merged updates m m'
          else m' = m.
Proof.
  intros i m Hi. exists (update_item id updates m).
  split; [by rewrite updateMonitor_items, list_lookup_fmap, Hi|].
  apply update_item_spec.
Qed.

Lemma updateMonitor_same (id : value) (updates : obj) (st : store) :
  same_but_monitor_items st (updateMonitor id updates st).
Proof. by repeat split. Qed.

(** C9: [updateMonitor(id, updates)] keeps the number and the order of the
    monitors; a monitor whose id is not [id] is unchanged; one whose id is
    [id] has the properties of [updates] written over its own; the
    pagination of the monitors and the rest of the store are unchanged; if
    no stored monitor has that id, the store is unchanged. *)
Theorem updateMonitor_frame (id : value) (updates : obj) (st : store) :
  let st' := updateMonitor id updates st in
  length (items (monitors st')) = length (items (monitors st)) ∧
  (∀ i m, items (monitors st) !! i = Some m →
     ∃ m', items (monitors st') !! i = Some m' ∧
           if strict_eq (get m "id") id then merged updates m m'
           else m' = m) ∧
  same_but_monitor_items st st' ∧
  ((∀ m, m ∈ items (monitors st) → strict_eq (get m "id") id = false) →
   st' = st).
Proof.
  cbv zeta.
  split; [apply updateMonitor_length|].
  split; [apply updateMonitor_lookup|].
  split; [apply updateMonitor_same|].
  intros Hno. unfold updateMonitor, set_monitors, with_items.
  rewrite (update_items_no_match _ _ _ Hno).
  by destruct st as [? ? [] ? ? ?].
Qed.

End updating.

(** ** The recorded totals *)

Section totals.

Import Store.

Lemma add_item_total (x : obj) (s : slice) :
  total (slice_pagination (add_item x s)) = total (slice_pagination s) + 1.
Proof. done. Qed.

Lemma remove_item_total (id : value) (s : slice) :
  total (slice_pagination (remove_item id s))
  = Z.max 0 (total (slice_pagination s) - 1).
Proof. done. Qed.

Lemma dispatch_totals_nonneg (a : action) (st : store) :
  totals_nonneg st → totals_nonneg (dispatch a st).
Proof.
  intros (Hs & Hm & Hn).
  destruct a; unfold totals_nonneg; simpl;
    rewrite ?add_item_total, ?remove_item_total; lia.
Qed.

Lemma run_snoc (acts : list action) (a : action) (st : store) :
  run (acts ++ [a]) st = dispatch a (run acts st).
Proof. unfold run. by rewrite foldl_app. Qed.

(** C10: starting from non-negative totals, after any sequence of add,
    update and remove actions on the three collections the three totals
    are non-negative; and removing from a collection whose recorded total
    is 0 leaves it at 0. *)
Theorem totals_never_negative (acts : list action) (st : store) :
  totals_nonneg st →
  totals_nonneg (run acts st) ∧
  (∀ id, total (slice_pagination (summaries (run acts st))) = 0 →
     total (slice_pagination (summaries (removeSummary id (run acts st))))
     = 0) ∧
  (∀ id, total (slice_pagination (monitors (run acts st))) = 0 →
     total (slice_pagination (monitors (removeMonitor id (run acts st))))
     = 0) ∧
  (∀ id, total (slice_pagination (notifications (run acts st))) = 0 →
     total (slice_pagination
              (notifications (removeNotification id (run acts st)))) = 0).
Proof.
  intros Hst. split.
  - induction acts as [|a acts IH] using rev_ind; [done|].
    rewrite run_snoc. by apply dispatch_totals_nonneg.
  - repeat split; intros id H0; simpl in *; rewrite H0; done.
Qed.

(** Removing twice from an empty store: the total stays at 0. *)
Lemma totals_never_negative_witness :
  totals_nonneg initial_store ∧
  totals_nonneg
    (run [RemoveMonitor (VStr "m1"); RemoveMonitor (VStr "m1")]
       initial_store).
Proof.
  assert (H : totals_nonneg initial_store)
    by (unfold totals_nonneg; simpl; lia).
  split; [exact H|].
  exact (proj1 (totals_never_negative
                  [RemoveMonitor (VStr "m1"); RemoveMonitor (VStr "m1")]
                  initial_store H)).
Defined.

End totals.

(** ** Applying a [monitor_update] message *)

Section monitor_update.

Import Store Hook.

Lemma monitor_updates_current_value (d : obj) :
  monitor_updates d !! "current_value" = Some (get d "current_value").
Proof.
  unfold monitor_updates, spread.
  destruct (truthy (get d "has_changed")); by simplify_map_eq.
Qed.

Lemma monitor_updates_last_checked (d : obj) :
  monitor_updates d !! "last_checked" = Some (get d "last_checked").
Proof.
  unfold monitor_updates, spread.
  destruct (truthy (get d "has_changed")); by simplify_map_eq.
Qed.

Lemma monitor_updates_last_changed (d : obj) :
  monitor_updates d !! "last_changed"
  = if truthy (get d "has_changed") then Some (get d "last_checked")
    else None.
Proof.
  unfold monitor_updates, spread.
  destruct (truthy (get d "has_changed")); by simplify_map_eq.
Qed.

Lemma monitor_updates_other (d : obj) (f : string) :
  f ≠ "current_value" → f ≠ "last_checked" → f ≠ "last_changed" →
  monitor_updates d !! f = None.
Proof.
  intros ? ? ?. unfold monitor_updates, spread.
  destruct (truthy (get d "has_changed")).
  - apply lookup_union_None. by simplify_map_eq.
  - by simplify_map_eq.
Qed.

(** C1: a message of type ['monitor_update'] with payload [d] keeps the
    number and the order of the monitors and leaves every monitor whose id
    is not [d.monitor_id] unchanged; a monitor whose id is [d.monitor_id]
    gets [d.current_value] and [d.last_checked]; its [last_changed] becomes
    [d.last_checked] when [d.has_changed] is truthy and is left as it was
    otherwise; its other fields are unchanged; so is the rest of the store,
    and the message shows no toast. *)
Theorem monitor_update_applied (d : obj) (st : store) :
  let r := handleMessage (mkMessage (VStr "monitor_update") d) st in
  length (items (monitors r.1)) = length (items (monitors st)) ∧
  (∀ i m, items (monitors st) !! i = Some m →
     ∃ m', items (monitors r.1) !! i = Some m' ∧
       if strict_eq (get m "id") (get d "monitor_id")
       then m' !! "current_value" = Some (get d "current_value") ∧
            m' !! "last_checked" = Some (get d "last_checked") ∧
            m' !! "last_changed"
              = (if truthy (get d "has_changed")
                 then Some (get d "last_checked")
                 else m !! "last_changed") ∧
            (∀ f, f ≠ "current_value" → f ≠ "last_checked" →
                  f ≠ "last_changed" → m' !! f = m !! f)
       else m' = m) ∧
  same_but_monitor_items st r.1 ∧
  r.2 = [].
Proof.
  cbv zeta. unfold handleMessage. simpl.
  pose proof (updateMonitor_lookup (get d "monitor_id") (monitor_updates d)
                st) as Hlk.
  split; [apply updateMonitor_length|].
  split; [|split; [apply updateMonitor_same | done]].
  intros i m Hi. destruct (Hlk i m Hi) as (m' & Hm' & Hspec).
  exists m'. split; [done|].
  destruct (strict_eq (get m "id") (get d "monitor_id")); [|done].
  destruct Hspec as [Hnew Hold].
  split; [apply Hnew, monitor_updates_current_value|].
  split; [apply Hnew, monitor_updates_last_checked|].
  split.
  - pose proof (monitor_updates_last_changed d) as Hc.
    destruct (truthy (get d "has_changed")); [by apply Hnew | by apply Hold].
  - intros f ? ? ?. by apply Hold, monitor_updates_other.
Qed.

End monitor_update.

(** ** Sending on the socket *)

Section sending.

Import Store Hook.

Context {A : Type} (stringify : A → option string).

Lemma silent_log (line : string) (h : hook) : silent (log line h) = silent h.
Proof. done. Qed.

Lemma transmitted_silent (h : hook) : transmitted (silent h) = transmitted h.
Proof. done. Qed.

Lemma transmitted_log (line : string) (h : hook) :
  transmitted (log line h) = transmitted h.
Proof. done. Qed.

Lemma silent_report (effects : list effect) :
  ∀ h, silent (foldl (λ h e, report e h) h effects) = silent h.
Proof.
  induction effects as [|e effects IH]; intros h; [done|].
  simpl. rewrite IH. by destruct e.
Qed.

(** What is written to the console never influences a step. *)
Lemma step_silent (e : event A) (h : hook) :
  silent <$> step stringify e (silent h) = silent <$> step stringify e h.
Proof.
  destruct h as [ok conn stat ws ref socks tms nxt cons st].
  destruct e as [s|s parsed|s|s|t| | |m]; simpl.
  - destruct (socks !! s) as [[[] ?]|]; simpl; try done.
    unfold onopen, clear_reconnect; simpl.
    destruct ref as [[|t]|]; done.
  - destruct (socks !! s) as [[[] ?]|]; simpl; try done;
      (destruct parsed as [m|]; [|done]); simpl;
      destruct (handleMessage m st) as [st' effects];
      by rewrite !silent_report.
  - destruct (socks !! s) as [[[] ?]|]; done.
  - destruct (socks !! s) as [[[] ?]|]; done.
  - unfold pending; simpl. destruct (existsb _ tms); [|done].
    unfold connect; simpl. destruct ok; done.
  - unfold connect; simpl. destruct ok; done.
  - unfold disconnect, clear_reconnect; simpl.
    destruct ref as [[|t]|]; simpl; destruct ws as [s|]; simpl; try done;
      unfold ws_close; simpl;
      destruct (socks !! s) as [[[] ?]|]; done.
  - unfold sendMessage; simpl. destruct ws as [s|]; simpl; [|done].
    destruct (socks !! s) as [[[] ?]|]; simpl; try done.
    destruct (stringify m); done.
Qed.

Lemma run_silent (evs : list (event A)) :
  ∀ h, silent <$> run stringify evs (silent h)
       = silent <$> run stringify evs h.
Proof.
  induction evs as [|e evs IH]; intros h; [done|].
  simpl. pose proof (step_silent e h) as He.
  destruct (step stringify e (silent h)) as [h1|],
           (step stringify e h) as [h2|]; try discriminate He; [|done].
  assert (Hs : silent h1 = silent h2) by (by apply (inj Some)).
  rewrite <- (IH h1), <- (IH h2). by rewrite Hs.
Qed.

Lemma run_log (line : string) (evs : list (event A)) (h : hook) :
  transmitted <$> run stringify evs (log line h)
  = transmitted <$> run stringify evs h.
Proof.
  pose proof (run_silent evs (log line h)) as H1.
  pose proof (run_silent evs h) as H2.
  rewrite silent_log, H2 in H1.
  destruct (run stringify evs (log line h)) as [h1|],
           (run stringify evs h) as [h2|]; try discriminate H1; [|done].
  assert (Hs : silent h1 = silent h2) by (by apply (inj Some)).
  change (Some (transmitted (silent h1)) = Some (transmitted (silent h2))).
  by rewrite Hs.
Qed.

(** C5: when the socket is absent or not open, [sendMessage(message)]
    returns without throwing, hands nothing to any socket, and changes
    nothing but the console, so that whatever happens next the frames
    transmitted are those that would have been transmitted without the call;
    when the socket is open, the message is serialised and the frame is
    handed to that socket, after the frames already sent (and the call
    throws only if the serialisation does). *)
Theorem sendMessage_drops_unless_open (m : A) (h : hook) :
  if is_open h
  then ∃ s k, wsRef h = Some s ∧ sockets h !! s = Some k ∧
         readyState k = OPEN ∧
         match stringify m with
         | Some frame =>
             ∃ h', sendMessage stringify m h = Returned h' ∧
               sockets h' = <[s := mkSocket OPEN (sent k ++ [frame])]>
                              (sockets h)
         | None => sendMessage stringify m h = Threw
         end
  else ∃ h', sendMessage stringify m h = Returned h' ∧
         silent h' = silent h ∧
         transmitted h' = transmitted h ∧
         ∀ evs, transmitted <$> run stringify evs h'
                = transmitted <$> run stringify evs h.
Proof.
  unfold is_open, sendMessage.
  destruct (wsRef h) as [s|] eqn:Hws.
  - destruct (sockets h !! s) as [[r snt]|] eqn:Hs; simpl.
    + destruct r; simpl;
        try (eexists; split; [done|]; split; [done|]; split; [done|];
             intros evs; apply run_log).
      exists s, (mkSocket OPEN snt). repeat split; try done.
      destruct (stringify m) as [frame|]; [|done].
      eexists; split; [done|]. unfold ws_send; simpl.
      apply list_eq. intros i. rewrite list_lookup_alter.
      case_decide as Hi.
      * subst i. rewrite Hs. simpl. rewrite list_lookup_insert_eq; [done|].
        by eapply lookup_lt_Some.
      * by rewrite list_lookup_insert_ne.
    + eexists; split; [done|]. split; [done|]. split; [done|].
      intros evs. apply run_log.
  - eexists; split; [done|]. split; [done|]. split; [done|].
    intros evs. apply run_log.
Qed.

End sending.

(** ** Reconnection *)

Section reconnection.

Import Store Hook.

Context {A : Type} (stringify : A → option string).

Lemma filter_not_pending (t : nat) (l : list (nat * Z)) :
  existsb (λ p, Nat.eqb p.1 t)
    (List.filter (λ p, negb (Nat.eqb p.1 t)) l) = false.
Proof.
  induction l as [|p l IH]; [done|].
  simpl. destruct (Nat.eqb p.1 t) eqn:Hp; simpl; [done|]. by rewrite Hp.
Qed.

(** Every close event schedules one timeout, of 3000 ms, and remembers it;
    no socket is created at that moment. *)
Lemma close_schedules_one (s : nat) (h h' : hook) :
  step stringify (SocketClose s) h = Some h' →
  timers h' = timers h ++ [(next_timer h, 3000)] ∧
  reconnectTimeoutRef h' = Some (next_timer h) ∧
  length (sockets h') = length (sockets h) ∧
  url_ok h' = url_ok h.
Proof.
  simpl. destruct (sockets h !! s) as [[r snt]|]; simpl; [|done].
  destruct r; intros [= <-]; simpl; try done;
    by rewrite length_alter.
Qed.

(** A timeout that fires makes one connection attempt: a new socket, which
    becomes the current one. *)
Lemma timeout_reconnects (t : nat) (h h' : hook) :
  url_ok h = true →
  step stringify (TimerFires t) h = Some h' →
  sockets h' = sockets h ++ [mkSocket CONNECTING []] ∧
  wsRef h' = Some (length (sockets h)) ∧
  pending t h' = false.
Proof.
  intros Hok. simpl. destruct (pending t h); [|done].
  intros [= <-]. unfold connect. simpl. rewrite Hok. simpl.
  repeat split. apply filter_not_pending.
Qed.

(** When a socket opens, the remembered timeout is cleared. *)
Lemma open_clears_pending (s t : nat) (h h' : hook) :
  reconnectTimeoutRef h = Some t → t ≠ 0%nat →
  step stringify (SocketOpen s) h = Some h' →
  reconnectTimeoutRef h' = None ∧ pending t h' = false.
Proof.
  intros Href Ht. simpl.
  destruct (sockets h !! s) as [[r snt]|]; simpl; [|done].
  destruct r; try done. intros [= <-].
  unfold onopen, clear_reconnect. simpl. rewrite Href.
  destruct t as [|t]; [done|]. simpl.
  split; [done|]. apply filter_not_pending.
Qed.

(** [disconnect()] clears the remembered timeout and forgets the socket. *)
Lemma disconnect_clears_pending (t : nat) (h : hook) :
  reconnectTimeoutRef h = Some t → t ≠ 0%nat →
  reconnectTimeoutRef (disconnect h) = None ∧
  pending t (disconnect h) = false ∧
  wsRef (disconnect h) = None.
Proof.
  destruct h as [ok conn stat ws ref socks tms nxt cons st]; simpl.
  intros -> Ht. destruct t as [|t]; [done|].
  unfold disconnect, clear_reconnect; simpl.
  destruct ws as [s|]; simpl.
  - unfold ws_close; simpl.
    destruct (socks !! s) as [[[] ?]|]; simpl;
      repeat split; apply filter_not_pending.
  - repeat split. apply filter_not_pending.
Qed.

Lemma clear_reconnect_frame (h : hook) :
  url_ok (clear_reconnect h) = url_ok h ∧
  wsRef (clear_reconnect h) = wsRef h ∧
  sockets (clear_reconnect h) = sockets h ∧
  next_timer (clear_reconnect h) = next_timer h.
Proof.
  unfold clear_reconnect. by destruct (reconnectTimeoutRef h) as [[|t]|].
Qed.

(** But [disconnect()] leaves a live socket closing, with its [onclose]
    handler in place. *)
Lemma disconnect_live_socket (s : nat) (k : socket) (h : hook) :
  wsRef h = Some s → sockets h !! s = Some k →
  readyState k = OPEN ∨ readyState k = CONNECTING →
  url_ok (disconnect h) = url_ok h ∧
  next_timer (disconnect h) = next_timer h ∧
  sockets (disconnect h)
  = alter (λ k, mkSocket CLOSING (sent k)) s (sockets h).
Proof.
  intros Hws Hs Hr. unfold disconnect.
  destruct (clear_reconnect_frame h) as (Hu & Hw & Hsk & Hn).
  set (h0 := clear_reconnect h) in *.
  rewrite Hw, Hws. simpl. unfold ws_close. rewrite Hsk, Hs. simpl.
  destruct k as [r snt]; simpl in Hr.
  destruct Hr as [-> | ->]; simpl; by rewrite Hu, Hn, Hsk.
Qed.

Lemma disconnect_leaves_closing (s : nat) (k : socket) (h : hook) :
  wsRef h = Some s → sockets h !! s = Some k →
  readyState k = OPEN ∨ readyState k = CONNECTING →
  readyState <$> sockets (disconnect h) !! s = Some CLOSING.
Proof.
  intros Hws Hs Hr.
  destruct (disconnect_live_socket s k h Hws Hs Hr) as (_ & _ & ->).
  by rewrite list_lookup_alter_eq, Hs.
Qed.

(** So whenever [disconnect()] is called while the current socket is open or
    connecting, the close event of that socket can follow, it schedules a
    timeout, and the timeout makes a new connection attempt. *)
Lemma disconnect_live_socket_reconnects (s : nat) (k : socket) (h : hook) :
  url_ok h = true →
  wsRef h = Some s → sockets h !! s = Some k →
  readyState k = OPEN ∨ readyState k = CONNECTING →
  ∃ h1 h2,
    step stringify (SocketClose s) (disconnect h) = Some h1 ∧
    reconnectTimeoutRef h1 = Some (next_timer h) ∧
    step stringify (TimerFires (next_timer h)) h1 = Some h2 ∧
    wsRef h2 = Some (length (sockets h)) ∧
    sockets h2 !! length (sockets h) = Some (mkSocket CONNECTING []).
Proof.
  intros Hok Hws Hs Hr.
  pose proof (disconnect_leaves_closing s k h Hws Hs Hr) as Hclosing.
  destruct (disconnect_live_socket s k h Hws Hs Hr) as (Hurl & Hnext & Hsk).
  destruct (step stringify (SocketClose s) (disconnect h)) as [h1|] eqn:H1;
    [|by unfold step in H1; rewrite Hclosing in H1].
  destruct (close_schedules_one s _ _ H1) as (Htm & Href & Hlen1 & Hurl1).
  rewrite Hurl, Hok in Hurl1.
  assert (Hpending : pending (next_timer h) h1 = true).
  { unfold pending. rewrite Htm, Hnext, existsb_app. simpl.
    by rewrite Nat.eqb_refl, orb_true_r. }
  destruct (step stringify (TimerFires (next_timer h)) h1) as [h2|] eqn:H2;
    [|by unfold step in H2; rewrite Hpending in H2].
  destruct (timeout_reconnects _ _ _ Hurl1 H2) as (Hsock & Hws2 & _).
  assert (Hlen : length (sockets h1) = length (sockets h)).
  { by rewrite Hlen1, Hsk, length_alter. }
  exists h1, h2.
  split; [done|]. split; [by rewrite Href, Hnext|].
  split; [done|]. split; [by rewrite Hws2, Hlen|].
  rewrite Hsock, <- Hlen, lookup_app_r; [|lia].
  by rewrite Nat.sub_diag.
Qed.

End reconnection.

(** C4, at the trace: connect, the socket opens, [disconnect()] is called,
    the close event of the socket arrives, the timeout fires.  After
    [disconnect()] nothing is pending and no socket is current; the close
    event of the socket that [disconnect()] closed then schedules a timeout
    of 3000 ms, and when it fires [connect] runs: a second socket is
    connecting and is the current one. *)
Theorem disconnect_then_close_reconnects :
  let stringify : unit → option string := λ _, None in
  ∃ h1 h2 h3,
    Hook.run stringify
      [Hook.CallConnect; Hook.SocketOpen 0%nat; Hook.CallDisconnect]
      (Hook.initial_hook true) = Some h1 ∧
    Hook.wsRef h1 = None ∧ Hook.reconnectTimeoutRef h1 = None ∧
    Hook.timers h1 = [] ∧ length (Hook.sockets h1) = 1%nat ∧
    Hook.step stringify (Hook.SocketClose 0%nat) h1 = Some h2 ∧
    Hook.timers h2 = [(1%nat, 3000)] ∧
    Hook.reconnectTimeoutRef h2 = Some 1%nat ∧
    Hook.step stringify (Hook.TimerFires 1%nat) h2 = Some h3 ∧
    Hook.wsRef h3 = Some 1%nat ∧
    Hook.readyState <$> Hook.sockets h3 !! 1%nat = Some Hook.CONNECTING ∧
    Hook.connectionStatus h3 = Hook.connecting.
Proof.
  cbv zeta. eexists _, _, _.
  split; [vm_compute; reflexivity|].
  do 4 (split; [reflexivity|]).
  split; [vm_compute; reflexivity|].
  do 2 (split; [reflexivity|]).
  split; [vm_compute; reflexivity|].
  repeat split.
Qed.

(** ** The interval of a submitted monitor *)

Section form.

Import MonitorForm.

Lemma parseInt_number_or_nan (s : string) : number_or_nan (parseInt s).
Proof.
  unfold parseInt, number_or_nan.
  destruct (strip_sign (skip_spaces s)) as [sign digits].
  destruct (parse_unsigned digits); eauto.
Qed.

Lemma onChange_interval (e : edit) (fd : formData) :
  number_or_nan (check_interval fd) →
  number_or_nan (check_interval (onChange e fd)).
Proof. destruct e; simpl; auto using parseInt_number_or_nan. Qed.

Lemma fill_interval (edits : list edit) :
  ∀ fd, number_or_nan (check_interval fd) →
        number_or_nan (check_interval (fill edits fd)).
Proof.
  induction edits as [|e edits IH]; intros fd Hfd; [done|].
  apply (IH (onChange e fd)). by apply onChange_interval.
Qed.

(** What the markup does ensure: the interval of a submitted monitor, when
    it is a number, is between 60 and 86400. *)
Lemma submitted_number_within_bounds (valid_url : string → bool)
    (edits : list edit) (body : formData) :
  (submit valid_url (fill edits initial_formData)).1 = Some body →
  within_bounds (check_interval body) ∨ check_interval body = VNaN.
Proof.
  unfold submit.
  assert (Hn : number_or_nan
                 (check_interval (fill edits initial_formData))).
  { apply fill_interval. left. by exists 300. }
  destruct (form_valid valid_url (fill edits initial_formData)) eqn:Hv;
    [|done].
  simpl. intros [= <-].
  destruct Hn as [[n Hn]|Hn]; [|by right].
  left. rewrite Hn. unfold form_valid in Hv. rewrite Hn in Hv. simpl in Hv.
  apply andb_true_iff in Hv as [_ Hv].
  apply andb_true_iff in Hv as [Hlo Hhi].
  apply Z.leb_le in Hlo, Hhi. simpl. lia.
Qed.

(** A form that is valid stays valid when its interval field is cleared,
    and is then submitted with [NaN] for the interval. *)
Lemma cleared_interval_is_submitted (valid_url : string → bool)
    (fd : formData) :
  form_valid valid_url fd = true →
  ∃ body, (submit valid_url (onChange (EditCheckInterval "") fd)).1
          = Some body ∧
          check_interval body = VNaN.
Proof.
  intros Hv. unfold submit.
  replace (form_valid valid_url (onChange (EditCheckInterval "") fd))
    with true.
  - eexists. by split.
  - symmetry. unfold form_valid in *. simpl.
    apply andb_true_iff in Hv as [Hv _]. by rewrite Hv.
Qed.

(** C7, at the failing input: the user names the monitor, gives its URL,
    clears the interval field and presses "Create Monitor".  The form is
    valid, so the request goes out, and the [check_interval] of its body is
    [NaN], which is not within the bounds. *)
Theorem empty_interval_is_submitted :
  let fd := fill [EditName "Price watch";
                  EditUrl "https://example.com/item";
                  EditCheckInterval ""] initial_formData in
  ∃ body, (submit (String.prefix "https://") fd).1 = Some body ∧
          check_interval body = VNaN ∧
          ¬ within_bounds (check_interval body).
Proof.
  cbv zeta. eexists. split; [vm_compute; reflexivity|].
  split; [reflexivity|]. simpl. tauto.
Qed.

End form.

(** ** The message preview *)

Section preview.

Import NotificationList.

Lemma substring_prefix (n : nat) :
  ∀ s, (n ≤ String.length s)%nat →
       ∃ rest, s = String.substring 0 n s +:+ rest ∧
               String.length (String.substring 0 n s) = n.
Proof.
  induction n as [|n IH]; intros s Hn.
  - exists s. by destruct s.
  - destruct s as [|c s]; simpl in Hn; [lia|].
    destruct (IH s) as (rest & Hs & Hl); [lia|].
    exists rest. split; [|simpl; by f_equal].
    change (String c s = String c (String.substring 0 n s +:+ rest)).
    by f_equal.
Qed.

(** C8: a message of more than 80 characters is shown as its first 80
    characters followed by three dots; a message of at most 80 characters
    is shown in full. *)
Theorem preview_capped (message : string) :
  ((80 < String.length message)%nat →
     ∃ first rest, message = first +:+ rest ∧
                   String.length first = 80%nat ∧
                   preview message = first +:+ "...") ∧
  ((String.length message ≤ 80)%nat → preview message = message).
Proof.
  unfold preview. split; intros Hlen.
  - destruct (substring_prefix 80 message) as (rest & Hm & Hl); [lia|].
    exists (String.substring 0 80 message), rest.
    split; [done|]. split; [done|].
    destruct (Nat.ltb_spec 80 (String.length message)); [done | lia].
  - destruct (Nat.ltb_spec 80 (String.length message)); [lia | done].
Qed.

End preview.

(** ** Price equality in the change detector *)

Section prices.

Import ChangeDetector.






















End prices.

(** ** Worked examples *)

Section examples.

Import Store Hook.

Let watch : obj :=
  <["id" := VStr "m1"]> (<["last_changed" := VStr "2024-01-01T00:00:00"]>
    (<["current_value" := VStr "10"]> ∅)).

Let other : obj := <["id" := VStr "m2"]> (<["current_value" := VStr "7"]> ∅).

Let two_monitors : store := addMonitor watch (addMonitor other initial_store).

Let unchanged_check : obj :=
  <["monitor_id" := VStr "m1"]> (<["current_value" := VStr "10"]>
    (<["last_checked" := VStr "2024-01-02T00:00:00"]>
      (<["has_changed" := VBool false]> ∅))).

Let changed_check : obj :=
  <["current_value" := VStr "12"]>
    (<["has_changed" := VBool true]> unchanged_check).

Example two_monitors_total :
  total (slice_pagination (monitors two_monitors)) = 2.
Proof. reflexivity. Qed.

(** A check that found no change moves [last_checked] only. *)
Example unchanged_check_applied :
  let st := (handleMessage (mkMessage (VStr "monitor_update") unchanged_check)
               two_monitors).1 in
  (λ m, (get m "current_value", get m "last_checked", get m "last_changed"))
    <$> items (monitors st)
  = [(VStr "10", VStr "2024-01-02T00:00:00", VStr "2024-01-01T00:00:00");
     (VStr "7", VUndefined, VUndefined)].
Proof. by vm_compute. Qed.

(** A check that found a change moves [last_changed] as well. *)
Example changed_check_applied :
  let st := (handleMessage (mkMessage (VStr "monitor_update") changed_check)
               two_monitors).1 in
  (λ m, (get m "current_value", get m "last_checked", get m "last_changed"))
    <$> items (monitors st)
  = [(VStr "12", VStr "2024-01-02T00:00:00", VStr "2024-01-02T00:00:00");
     (VStr "7", VUndefined, VUndefined)].
Proof. by vm_compute. Qed.

(** An update for an id nobody has changes nothing. *)
Example update_unknown_monitor :
  updateMonitor (VStr "m9") changed_check two_monitors = two_monitors.
Proof. by vm_compute. Qed.

(** The id is compared with [===]: the number 1 is not the string ["1"]. *)
Example strict_eq_types : strict_eq (VNum 1) (VStr "1") = false.
Proof. reflexivity. Qed.

(** Removing from an empty collection leaves the total at 0. *)
Example remove_from_empty :
  total (slice_pagination (monitors (removeMonitor (VStr "m1") initial_store)))
  = 0.
Proof. reflexivity. Qed.

Example add_then_remove_twice :
  total (slice_pagination
           (notifications
              (Store.run [AddNotification watch; RemoveNotification (VStr "m1");
                          RemoveNotification (VStr "m1")] initial_store)))
  = 0.
Proof. reflexivity. Qed.

(** Marking one of two notifications. *)
Example mark_one :
  let clock : nat → string := λ _, "2024-01-03T00:00:00" in
  let st := addNotification watch (addNotification other initial_store) in
  (λ n, (get n "id", get n "is_read", get n "read_at"))
    <$> items (notifications (markNotificationRead clock (VStr "m2") 0 st).1)
  = [(VStr "m1", VUndefined, VUndefined);
     (VStr "m2", VBool true, VStr "2024-01-03T00:00:00")].
Proof. by vm_compute. Qed.

(** [parseInt] on what an interval field can hold. *)
Example parseInt_examples :
  MonitorForm.parseInt "300" = VNum 300 ∧
  MonitorForm.parseInt "" = VNaN ∧
  MonitorForm.parseInt "  -42px" = VNum (-42) ∧
  MonitorForm.parseInt "0x1F" = VNum 31 ∧
  MonitorForm.parseInt "abc" = VNaN.
Proof. by vm_compute. Qed.

(** An interval below the floor does not pass the form. *)
Example short_interval_is_blocked :
  (MonitorForm.submit (String.prefix "https://")
     (MonitorForm.fill [MonitorForm.EditName "Price watch";
                        MonitorForm.EditUrl "https://example.com/item";
                        MonitorForm.EditCheckInterval "30"]
        MonitorForm.initial_formData)).1 = None.
Proof. by vm_compute. Qed.

(** A message of 81 characters is cut, one of 80 is not. *)
Example preview_81 :
  let eighty :=
    "0123456789012345678901234567890123456789012345678901234567890123456789012345678X"
  in
  NotificationList.preview (eighty +:+ "Y") = eighty +:+ "..." ∧
  NotificationList.preview eighty = eighty.
Proof. by vm_compute. Qed.

(** A price that did change is reported, with both values in the summary. *)
Example price_change_reported :
  ChangeDetector.detect 40 ChangeDetector.price (Some "1200") "1300"
  = ChangeDetector.Changed "1200" "1300" "1200 -> 1300".
Proof. by vm_compute. Qed.

(** The sign is part of the number, and a text with words in it is not a
    number: both are changes. *)
Example sign_and_words_are_no_formatting :
  ChangeDetector.detect 40 ChangeDetector.price (Some "-1200") "1200"
  = ChangeDetector.Changed "-1200" "1200" "-1200 -> 1200" ∧
  ChangeDetector.parse_price "12 for 5" = None ∧
  ChangeDetector.detect 40 ChangeDetector.price (Some "12 for 5") "125"
  = ChangeDetector.Changed "12 for 5" "125" "12 for 5 -> 125".
Proof. by vm_compute. Qed.

(** Commas group by three in the whole part and nowhere else; the point
    starts the decimals. *)
Example commas_group_by_three :
  ChangeDetector.parse_price "1,234,567.50" = Some (123456750, 2%nat) ∧
  ChangeDetector.parse_price "12,34" = None ∧
  ChangeDetector.parse_price "1234,567" = None ∧
  ChangeDetector.parse_price "1.200,00" = None ∧
  ChangeDetector.parse_price "1,200.0.0" = None.
Proof. by vm_compute. Qed.

(** Under any other strategy the two spellings of 1200 differ. *)
Example content_formatting_is_a_change :
  ChangeDetector.detect 40 ChangeDetector.content (Some "$1,200.00") "1200"
  = ChangeDetector.Changed "$1,200.00" "1200" "$1,200.00 -> 1200".
Proof. by vm_compute. Qed.

(** Sending before the socket has opened: a warning, nothing else. *)
Example send_while_connecting :
  sendMessage (λ m : string, Some m) "ping" (connect (initial_hook true))
  = Returned (log "WebSocket is not connected" (connect (initial_hook true))).
Proof. reflexivity. Qed.

(** A time-out that was scheduled by a close event and cancelled by
    [disconnect()] before the socket was replaced does not fire. *)
Example disconnect_while_waiting :
  Hook.run (λ m : string, Some m)
    [CallConnect; SocketClose 0%nat; CallDisconnect; TimerFires 1%nat]
    (initial_hook true) = None.
Proof. reflexivity. Qed.

End examples.

(** * Further properties *)

(** ** Adding, removing and updating items *)

Section store_items.

Import Store StoreActions StoreSpec.

Lemma strict_eq_eq (a b : value) : strict_eq a b = true → a = b.
Proof.
  destruct a, b; simpl; try done; intros H.
  - by apply Bool.eqb_prop in H as ->.
  - by apply Z.eqb_eq in H as ->.
  - by apply String.eqb_eq in H as ->.
  - by apply Nat.eqb_eq in H as ->.
Qed.

Lemma filter_keeps_all {X : Type} (f : X → bool) (l : list X) :
  (∀ x, x ∈ l → f x = true) → List.filter f l = l.
Proof.
  induction l as [|x l IH]; intros Hall; [done|].
  simpl. rewrite Hall by left. f_equal. apply IH. intros y Hy.
  apply Hall. by right.
Qed.

Lemma filter_elem_of {X : Type} (f : X → bool) (l : list X) (x : X) :
  x ∈ List.filter f l ↔ x ∈ l ∧ f x = true.
Proof. rewrite !list_elem_of_In. apply filter_In. Qed.

Lemma filter_sublist {X : Type} (f : X → bool) (l : list X) :
  sublist (List.filter f l) l.
Proof.
  induction l as [|x l IH]; simpl; [constructor|].
  destruct (f x); by constructor.
Qed.




Lemma remove_add_item (x : obj) (s : slice) :
  strict_eq (get x "id") (get x "id") = true →
  fresh (get x "id") s → 0 ≤ total (slice_pagination s) < 2 ^ 53 →
  remove_item (get x "id") (add_item x s) = s.
Proof.
  intros Hrefl Hfresh [Htot _]. unfold remove_item, add_item, with_items_total.
  simpl. rewrite Hrefl. simpl. rewrite filter_keeps_all.
  - destruct s as [its ld er [pg pp tot hm]]; simpl in *.
    unfold with_total; simpl. do 2 f_equal. lia.
  - intros y Hy. by rewrite (Hfresh y Hy).
Qed.

(** An item that is added and then removed by its id leaves the store as it
    was, in each of the three collections, provided the id compares equal to
    itself, no stored item of the collection has it, and the recorded total
    is not negative and below [2 ^ 53], the range in which a double grows by
    exactly one. *)
Theorem add_then_remove_restores (x : obj) (st : store) :
  strict_eq (get x "id") (get x "id") = true →
  (fresh (get x "id") (summaries st) →
   0 ≤ total (slice_pagination (summaries st)) < 2 ^ 53 →
   removeSummary (get x "id") (addSummary x st) = st) ∧
  (fresh (get x "id") (monitors st) →
   0 ≤ total (slice_pagination (monitors st)) < 2 ^ 53 →
   removeMonitor (get x "id") (addMonitor x st) = st) ∧
  (fresh (get x "id") (notifications st) →
   0 ≤ total (slice_pagination (notifications st)) < 2 ^ 53 →
   removeNotification (get x "id") (addNotification x st) = st).
Proof.
  intros Hrefl.
  repeat split; intros Hfresh Htot;
    unfold removeSummary, addSummary, removeMonitor, addMonitor,
      removeNotification, addNotification,
      set_summaries, set_monitors, set_notifications; simpl;
    rewrite remove_add_item by done; by destruct st.
Qed.

Lemma add_then_remove_restores_witness :
  let x : obj := <["id" := VStr "m2"]> ∅ in
  let st := addMonitor (<["id" := VStr "m1"]> ∅) initial_store in
  strict_eq (get x "id") (get x "id") = true ∧
  fresh (get x "id") (monitors st) ∧
  0 ≤ total (slice_pagination (monitors st)) < 2 ^ 53 ∧
  removeMonitor (get x "id") (addMonitor x st) = st.
Proof.
  cbv zeta.
  assert (Hfresh : fresh (get (<["id" := VStr "m2"]> ∅ : obj) "id")
                     (monitors (addMonitor (<["id" := VStr "m1"]> ∅)
                                  initial_store))).
  { intros y Hy. apply list_elem_of_singleton in Hy. by rewrite Hy. }
  assert (Htot : 0 ≤ total (slice_pagination
                              (monitors (addMonitor (<["id" := VStr "m1"]> ∅)
                                           initial_store))) < 2 ^ 53).
  { simpl. lia. }
  split; [reflexivity|]. split; [exact Hfresh|]. split; [exact Htot|].
  exact (proj1 (proj2 (add_then_remove_restores
                         (<["id" := VStr "m2"]> ∅)
                         (addMonitor (<["id" := VStr "m1"]> ∅) initial_store)
                         eq_refl))
           Hfresh Htot).
Defined.




End store_items.

(** ** Updates compose *)

Section store_updates.

Import Store StoreActions Hook StoreSocket.

Lemma get_spread (a b : obj) (k : string) :
  get (spread a b) k
  = match b !! k with Some v => v | None => get a k end.
Proof.
  unfold get. destruct (b !! k) as [v|] eqn:Hb.
  - by rewrite (spread_lookup_new a b k v Hb).
  - by rewrite spread_lookup_old.
Qed.

Lemma spread_spread (x u1 u2 : obj) :
  spread (spread x u1) u2 = spread x (spread u1 u2).
Proof. unfold spread. by rewrite (assoc_L (∪)). Qed.

Lemma spread_same (x u : obj) : spread (spread x u) u = spread x u.
Proof. unfold spread. by rewrite (assoc_L (∪)), (idemp_L (∪)). Qed.

Lemma update_item_twice (id : value) (u x : obj) :
  update_item id u (update_item id u x) = update_item id u x.
Proof.
  unfold update_item.
  destruct (strict_eq (get x "id") id) eqn:Hx; [|by rewrite Hx].
  rewrite get_spread. destruct (u !! "id") as [v|].
  - destruct (strict_eq v id); [apply spread_same | done].
  - rewrite Hx. apply spread_same.
Qed.

Lemma update_item_merge (id : value) (u1 u2 x : obj) :
  u1 !! "id" = None →
  update_item id u2 (update_item id u1 x) = update_item id (spread u1 u2) x.
Proof.
  intros Hu1. unfold update_item.
  destruct (strict_eq (get x "id") id) eqn:Hx; [|by rewrite Hx].
  rewrite get_spread, Hu1, Hx. apply spread_spread.
Qed.

Lemma update_item_commute (id1 id2 : value) (u1 u2 x : obj) :
  strict_eq id1 id2 = false →
  u1 !! "id" = None → u2 !! "id" = None →
  update_item id1 u1 (update_item id2 u2 x)
  = update_item id2 u2 (update_item id1 u1 x).
Proof.
  intros Hne Hu1 Hu2. unfold update_item.
  destruct (strict_eq (get x "id") id1) eqn:H1,
           (strict_eq (get x "id") id2) eqn:H2.
  - apply strict_eq_eq in H1 as Heq1. apply strict_eq_eq in H2 as Heq2.
    subst id1 id2. congruence.
  - by rewrite get_spread, Hu1, ?H1, ?H2.
  - by rewrite get_spread, Hu2, ?H1, ?H2.
  - by rewrite ?H1, ?H2.
Qed.

Lemma update_items_compose (f g h : obj → obj) (l : list obj) :
  (∀ x, f (g x) = h x) → f <$> (g <$> l) = h <$> l.
Proof.
  intros Hfg. rewrite <- list_fmap_compose. apply list_fmap_ext.
  intros _ x _. apply Hfg.
Qed.

(** Applying the same update twice is the same as applying it once, for
    monitors and for summaries. *)
Theorem update_twice_is_once (id : value) (updates : obj) (st : store) :
  updateMonitor id updates (updateMonitor id updates st)
  = updateMonitor id updates st ∧
  updateSummary id updates (updateSummary id updates st)
  = updateSummary id updates st.
Proof.
  split; unfold updateMonitor, updateSummary, set_monitors, set_summaries,
    with_items; simpl; do 2 f_equal;
    apply update_items_compose, update_item_twice.
Qed.

(** Two updates of the same id, the first of which does not write the [id]
    property, amount to one update with the second written over the
    first. *)
Theorem updates_of_one_id_merge (id : value) (u1 u2 : obj) (st : store) :
  u1 !! "id" = None →
  updateMonitor id u2 (updateMonitor id u1 st)
  = updateMonitor id (spread u1 u2) st ∧
  updateSummary id u2 (updateSummary id u1 st)
  = updateSummary id (spread u1 u2) st.
Proof.
  intros Hu1.
  split; unfold updateMonitor, updateSummary, set_monitors, set_summaries,
    with_items; simpl; do 2 f_equal;
    apply update_items_compose; intros x; by apply update_item_merge.
Qed.

Lemma updates_of_one_id_merge_witness :
  let u1 : obj := <["current_value" := VStr "10"]> ∅ in
  let u2 : obj := <["current_value" := VStr "12"]> ∅ in
  let st := addMonitor (<["id" := VStr "m1"]> ∅) initial_store in
  u1 !! "id" = None ∧
  updateMonitor (VStr "m1") u2 (updateMonitor (VStr "m1") u1 st)
  = updateMonitor (VStr "m1") (spread u1 u2) st.
Proof.
  cbv zeta. split; [reflexivity|].
  apply (updates_of_one_id_merge (VStr "m1")
           (<["current_value" := VStr "10"]> ∅)
           (<["current_value" := VStr "12"]> ∅)).
  reflexivity.
Defined.

(** Two [monitor_update] messages for monitors with different ids can be
    handled in either order: the store is the same afterwards. *)
Theorem monitor_updates_commute (d1 d2 : obj) (st : store) :
  strict_eq (get d1 "monitor_id") (get d2 "monitor_id") = false →
  (handleMessage (mkMessage (VStr "monitor_update") d1)
     (handleMessage (mkMessage (VStr "monitor_update") d2) st).1).1
  = (handleMessage (mkMessage (VStr "monitor_update") d2)
       (handleMessage (mkMessage (VStr "monitor_update") d1) st).1).1.
Proof.
  intros Hne. unfold handleMessage. simpl.
  unfold updateMonitor, set_monitors, with_items; simpl. do 2 f_equal.
  rewrite <- !list_fmap_compose. apply list_fmap_ext. intros _ x _. simpl.
  apply update_item_commute; [done|..];
    by apply monitor_updates_other.
Qed.

Lemma monitor_updates_commute_witness :
  let d1 : obj := <["monitor_id" := VStr "m1"]>
                    (<["current_value" := VStr "$10"]>
                       (<["last_checked" := VStr "09:00"]>
                          (<["has_changed" := VBool true]> ∅))) in
  let d2 : obj := <["monitor_id" := VStr "m2"]>
                    (<["current_value" := VStr "$7"]>
                       (<["last_checked" := VStr "09:05"]> ∅)) in
  let st := addMonitor (<["id" := VStr "m1"]> ∅)
              (addMonitor (<["id" := VStr "m2"]> ∅) initial_store) in
  let after1 := (handleMessage (mkMessage (VStr "monitor_update") d1) st).1 in
  let after2 := (handleMessage (mkMessage (VStr "monitor_update") d2) st).1 in
  strict_eq (get d1 "monitor_id") (get d2 "monitor_id") = false ∧
  after1 ≠ st ∧ after2 ≠ st ∧ after1 ≠ after2 ∧
  (handleMessage (mkMessage (VStr "monitor_update") d1) after2).1
  = (handleMessage (mkMessage (VStr "monitor_update") d2) after1).1.
Proof.
  cbv zeta. split; [reflexivity|].
  split; [by vm_compute|]. split; [by vm_compute|]. split; [by vm_compute|].
  apply (monitor_updates_commute
           (<["monitor_id" := VStr "m1"]>
              (<["current_value" := VStr "$10"]>
                 (<["last_checked" := VStr "09:00"]>
                    (<["has_changed" := VBool true]> ∅))))
           (<["monitor_id" := VStr "m2"]>
              (<["current_value" := VStr "$7"]>
                 (<["last_checked" := VStr "09:05"]> ∅)))).
  reflexivity.
Defined.

Lemma update_item_keeps_id_hook (d x : obj) :
  get (update_item (get d "monitor_id") (monitor_updates d) x) "id"
  = get x "id".
Proof.
  unfold update_item. destruct (strict_eq _ _); [|done].
  by rewrite get_spread, monitor_updates_other.
Qed.

Lemma update_item_keeps_id_store (d x : obj) :
  get (update_item (get d "id") d x) "id" = get x "id".
Proof.
  unfold update_item. destruct (strict_eq _ _) eqn:Hx; [|done].
  apply strict_eq_eq in Hx. rewrite get_spread.
  destruct (d !! "id") as [v|] eqn:Hd; [|done].
  by rewrite Hx, (get_lookup d "id" v Hd).
Qed.

(** Neither dispatcher of real-time messages ever changes the id of a
    monitor, the number of monitors or their order, whatever the message. *)
Theorem dispatchers_keep_monitor_ids (m : message) (st : store) :
  ids (items (monitors (handleMessage m st).1)) = ids (items (monitors st)) ∧
  ids (items (monitors (handleWebSocketMessage m st).1))
  = ids (items (monitors st)).
Proof.
  unfold handleMessage, handleWebSocketMessage, ids.
  destruct (strict_eq (msg_type m) (VStr "notification")); [done|].
  destruct (strict_eq (msg_type m) (VStr "monitor_update")).
  - split; simpl; rewrite <- list_fmap_compose; apply list_fmap_ext;
      intros _ x _; simpl.
    + apply update_item_keeps_id_hook.
    + apply update_item_keeps_id_store.
  - by destruct (strict_eq (msg_type m) (VStr "system_status")).
Qed.

End store_updates.

(** ** What is persisted *)

Section persistence.

Import Store StoreActions.

(** [partialize] keeps at most the first 10 summaries and the first 50
    notifications, all the monitors, and the paginations as recorded; a
    list that is short enough is kept whole; and since [addNotification]
    puts a notification first, one that was just added is always kept. *)
Theorem partialize_keeps_the_newest (st : store) :
  let p := partialize st in
  (p_summaries p).1 `prefix_of` items (summaries st) ∧
  (length (p_summaries p).1 ≤ 10)%nat ∧
  (p_notifications p).1 `prefix_of` items (notifications st) ∧
  (length (p_notifications p).1 ≤ 50)%nat ∧
  ((length (items (summaries st)) ≤ 10)%nat →
   (p_summaries p).1 = items (summaries st)) ∧
  ((length (items (notifications st)) ≤ 50)%nat →
   (p_notifications p).1 = items (notifications st)) ∧
  (p_monitors p).1 = items (monitors st) ∧
  (p_summaries p).2 = slice_pagination (summaries st) ∧
  (p_monitors p).2 = slice_pagination (monitors st) ∧
  (p_notifications p).2 = slice_pagination (notifications st) ∧
  (∀ n, (p_notifications (partialize (addNotification n st))).1 !! 0%nat
        = Some n).
Proof.
  cbv zeta. unfold partialize, slice_from_start. simpl.
  split; [apply prefix_take|].
  split; [rewrite length_take; lia|].
  split; [apply prefix_take|].
  split; [rewrite length_take; lia|].
  split; [intros H; by apply take_ge|].
  split; [intros H; by apply take_ge|].
  by repeat split.
Qed.

End persistence.

(** ** Invariants of the connection life cycle *)

Section hook_invariants.

Import Store Hook HookSpec.

Context {A : Type} (stringify : A → option string).

Lemma report_frame (effects : list effect) :
  ∀ h, let h' := foldl (λ h e, report e h) h effects in
       url_ok h' = url_ok h ∧ isConnected h' = isConnected h ∧
       connectionStatus h' = connectionStatus h ∧ wsRef h' = wsRef h ∧
       reconnectTimeoutRef h' = reconnectTimeoutRef h ∧
       sockets h' = sockets h ∧ timers h' = timers h ∧
       next_timer h' = next_timer h ∧ app h' = app h.
Proof.
  induction effects as [|e effects IH]; intros h; [done|].
  simpl.
  destruct (IH (report e h))
    as (-> & -> & -> & -> & -> & -> & -> & -> & ->).
  by destruct e.
Qed.

Lemma onmessage_frame (parsed : option message) (h : hook) :
  url_ok (onmessage parsed h) = url_ok h ∧
  isConnected (onmessage parsed h) = isConnected h ∧
  connectionStatus (onmessage parsed h) = connectionStatus h ∧
  wsRef (onmessage parsed h) = wsRef h ∧
  reconnectTimeoutRef (onmessage parsed h) = reconnectTimeoutRef h ∧
  sockets (onmessage parsed h) = sockets h ∧
  timers (onmessage parsed h) = timers h ∧
  next_timer (onmessage parsed h) = next_timer h.
Proof.
  unfold onmessage. destruct parsed as [m|]; [|done].
  destruct (handleMessage m (app h)) as [st effects].
  destruct (report_frame effects (set_app st h))
    as (-> & -> & -> & -> & -> & -> & -> & -> & _).
  done.
Qed.

(** Well-formedness only looks at the references, the timeouts and the
    number of sockets. *)
Lemma well_formed_same (h h' : hook) :
  wsRef h' = wsRef h → reconnectTimeoutRef h' = reconnectTimeoutRef h →
  length (sockets h') = length (sockets h) → timers h' = timers h →
  next_timer h' = next_timer h →
  well_formed h → well_formed h'.
Proof.
  intros Hw Hr Hs Ht Hn (Hws & Htm & Hnd & Href & Hpos).
  unfold well_formed. rewrite Hw, Hr, Hs, Ht, Hn. done.
Qed.

Lemma filter_timers_wf (f : nat * Z → bool) (l : list (nat * Z)) (n : nat) :
  (∀ t d, (t, d) ∈ l → (1 ≤ t < n)%nat ∧ d = 3000) →
  NoDup l.*1 →
  (∀ t d, (t, d) ∈ List.filter f l → (1 ≤ t < n)%nat ∧ d = 3000) ∧
  NoDup (List.filter f l).*1.
Proof.
  intros Hall Hnd. split.
  - intros t d Ht. apply filter_elem_of in Ht as [Ht _]. by apply Hall.
  - assert (Hsub : (List.filter f l).*1 `sublist_of` l.*1)
      by apply fmap_sublist, filter_sublist.
    by apply (sublist_NoDup _ _ Hnd).
Qed.

Lemma clearTimeout_wf (t : nat) (h : hook) :
  well_formed h → well_formed (clearTimeout t h).
Proof.
  intros (Hws & Htm & Hnd & Href & Hpos).
  destruct (filter_timers_wf (λ p, negb (Nat.eqb p.1 t)) _ _ Htm Hnd)
    as [Htm' Hnd'].
  unfold well_formed; simpl. auto.
Qed.

Lemma clear_reconnect_wf (h : hook) :
  well_formed h → well_formed (clear_reconnect h).
Proof.
  intros Hwf. unfold clear_reconnect.
  destruct (reconnectTimeoutRef h) as [[|t]|] eqn:Hr; [done| |done].
  destruct (clearTimeout_wf (S t) h Hwf) as (Hws & Htm & Hnd & Href & Hpos).
  unfold well_formed; simpl. simpl in *.
  split; [done|]. split; [done|]. split; [done|]. split; [done|]. done.
Qed.

Lemma connect_wf (h : hook) : well_formed h → well_formed (connect h).
Proof.
  intros (Hws & Htm & Hnd & Href & Hpos). unfold connect. simpl.
  destruct (url_ok h); unfold well_formed; simpl; [|auto 10].
  split; [|auto 10].
  intros s [= <-]. rewrite length_app. simpl. lia.
Qed.

Lemma set_readyState_wf (s : nat) (r : ready_state) (h : hook) :
  well_formed h → well_formed (set_readyState s r h).
Proof.
  apply well_formed_same; try done. simpl. apply length_alter.
Qed.

Lemma onclose_wf (h : hook) : well_formed h → well_formed (onclose h).
Proof.
  intros (Hws & Htm & Hnd & Href & Hpos). unfold onclose, well_formed. simpl.
  split; [done|]. split; [|split; [|split]].
  - intros t d Ht. apply elem_of_app in Ht as [Ht|Ht].
    + destruct (Htm t d Ht). split; [lia | done].
    + apply list_elem_of_singleton in Ht as [= -> ->]. split; [lia | done].
  - rewrite fmap_app. simpl. apply NoDup_app. split; [done|].
    split; [|apply NoDup_singleton].
    intros t Ht Hnew. apply list_elem_of_singleton in Hnew as ->.
    apply list_elem_of_fmap in Ht as ([t d] & Heq & Ht). simpl in Heq.
    subst t. destruct (Htm _ _ Ht). lia.
  - intros t [= <-]. lia.
  - lia.
Qed.

Lemma disconnect_wf (h : hook) : well_formed h → well_formed (disconnect h).
Proof.
  intros Hwf. unfold disconnect.
  pose proof (clear_reconnect_wf h Hwf) as (Hws & Htm & Hnd & Href & Hpos).
  set (h0 := clear_reconnect h) in *.
  destruct (wsRef h0) as [s|] eqn:Hw.
  - unfold ws_close.
    destruct (readyState <$> sockets h0 !! s) as [[]|];
      unfold well_formed; simpl; (split; [done|]); auto.
  - unfold well_formed; simpl. rewrite Hw. auto 10.
Qed.

Lemma step_well_formed (e : event A) (h h' : hook) :
  step stringify e h = Some h' → well_formed h → well_formed h'.
Proof.
  intros Hstep Hwf. destruct e as [s|s parsed|s|s|t| | |m]; simpl in Hstep.
  - destruct (readyState <$> sockets h !! s) as [[]|]; try done.
    injection Hstep as <-. unfold onopen.
    apply clear_reconnect_wf.
    by eapply well_formed_same; [..|apply (set_readyState_wf s OPEN h Hwf)].
  - destruct (readyState <$> sockets h !! s) as [[]|]; try done;
      injection Hstep as <-;
      destruct (onmessage_frame parsed h)
        as (_ & _ & _ & Hw & Hr & Hs & Ht & Hn);
      (eapply well_formed_same; [..|exact Hwf]); try done;
      by rewrite Hs.
  - destruct (readyState <$> sockets h !! s) as [[]|]; try done;
      injection Hstep as <-; by eapply well_formed_same; [..|exact Hwf].
  - destruct (readyState <$> sockets h !! s) as [[]|]; try done;
      injection Hstep as <-; apply onclose_wf;
      by apply set_readyState_wf.
  - destruct (pending t h); [|done]. injection Hstep as <-.
    by apply connect_wf, clearTimeout_wf.
  - injection Hstep as <-. by apply connect_wf.
  - injection Hstep as <-. by apply disconnect_wf.
  - unfold sendMessage in Hstep.
    destruct (wsRef h) as [s|];
      [destruct (readyState <$> sockets h !! s) as [[]|]|];
      try destruct (stringify m);
      injection Hstep as <-; try done;
      (eapply well_formed_same; [..|exact Hwf]); try done.
    simpl. apply length_alter.
Qed.

Lemma initial_hook_well_formed (ok : bool) : well_formed (initial_hook ok).
Proof.
  unfold well_formed; simpl.
  split; [done|]. split; [|split; [constructor|split; [done|lia]]].
  intros t d Ht. by apply elem_of_nil in Ht.
Qed.

Lemma run_invariant (P : hook → Prop) :
  (∀ e h h', step stringify e h = Some h' → P h → P h') →
  ∀ evs h h', run stringify evs h = Some h' → P h → P h'.
Proof.
  intros Hstep. induction evs as [|e evs IH]; intros h h' Hrun HP.
  - by injection Hrun as <-.
  - simpl in Hrun. destruct (step stringify e h) as [h1|] eqn:H1; [|done].
    eapply IH; [exact Hrun|]. by eapply Hstep.
Qed.

(** Whatever happens to a hook, from its creation on, its references stay
    valid: the current socket exists, the pending timeouts have distinct
    identifiers that were handed out and a delay of 3000 ms, and the
    remembered timeout is an identifier that was handed out. *)
Theorem references_stay_valid (ok : bool) (evs : list (event A)) (h : hook) :
  run stringify evs (initial_hook ok) = Some h → well_formed h.
Proof.
  intros Hrun. eapply (run_invariant well_formed); [|exact Hrun|].
  - apply step_well_formed.
  - apply initial_hook_well_formed.
Qed.

Lemma step_status_consistent (e : event A) (h h' : hook) :
  step stringify e h = Some h' → status_consistent h → status_consistent h'.
Proof.
  unfold status_consistent.
  intros Hstep Hc. destruct e as [s|s parsed|s|s|t| | |m]; simpl in Hstep.
  - destruct (readyState <$> sockets h !! s) as [[]|]; try done.
    injection Hstep as <-. unfold onopen, clear_reconnect. simpl.
    by destruct (reconnectTimeoutRef h) as [[|t]|].
  - destruct (readyState <$> sockets h !! s) as [[]|]; try done;
      injection Hstep as <-;
      destruct (onmessage_frame parsed h) as (_ & -> & -> & _); done.
  - destruct (readyState <$> sockets h !! s) as [[]|]; try done;
      by injection Hstep as <-.
  - destruct (readyState <$> sockets h !! s) as [[]|]; try done;
      by injection Hstep as <-.
  - destruct (pending t h); [|done]. injection Hstep as <-.
    unfold connect. simpl. by destruct (url_ok h).
  - injection Hstep as <-. unfold connect. simpl. by destruct (url_ok h).
  - by injection Hstep as <-.
  - unfold sendMessage in Hstep.
    destruct (wsRef h) as [s|];
      [destruct (readyState <$> sockets h !! s) as [[]|]|];
      try destruct (stringify m);
      by injection Hstep as <-.
Qed.

(** Whatever happens to a hook, from its creation on, the status reads
    ['connected'] only while [isConnected] is true. *)
Theorem connected_status_means_connected (ok : bool) (evs : list (event A))
    (h : hook) :
  run stringify evs (initial_hook ok) = Some h →
  connectionStatus h = connected → isConnected h = true.
Proof.
  intros Hrun. eapply (run_invariant status_consistent); [|exact Hrun|].
  - apply step_status_consistent.
  - done.
Qed.

End hook_invariants.

Lemma references_stay_valid_witness :
  ∃ h, Hook.run (λ _ : unit, None)
         [Hook.CallConnect; Hook.SocketClose 0%nat; Hook.CallConnect]
         (Hook.initial_hook true) = Some h ∧
       HookSpec.well_formed h.
Proof.
  eexists. split; [vm_compute; reflexivity|].
  apply (references_stay_valid (λ _ : unit, None) true
           [Hook.CallConnect; Hook.SocketClose 0%nat; Hook.CallConnect]).
  vm_compute; reflexivity.
Defined.

Lemma connected_status_means_connected_witness :
  ∃ h, Hook.run (λ _ : unit, None)
         [Hook.CallConnect; Hook.SocketOpen 0%nat]
         (Hook.initial_hook true) = Some h ∧
       Hook.connectionStatus h = Hook.connected ∧
       Hook.isConnected h = true.
Proof.
  eexists. split; [vm_compute; reflexivity|]. split; [reflexivity|].
  apply (connected_status_means_connected (λ _ : unit, None) true
           [Hook.CallConnect; Hook.SocketOpen 0%nat]);
    vm_compute; reflexivity.
Defined.

(** ** Sockets only move forward *)

Section hook_sockets.

Import Store Hook HookSpec.

Context {A : Type} (stringify : A → option string).

Lemma later_refl (k : socket) : later k k.
Proof. by repeat split. Qed.

Lemma later_trans (k1 k2 k3 : socket) :
  later k1 k2 → later k2 k3 → later k1 k3.
Proof.
  intros (Hr1 & Hp1 & Hc1) (Hr2 & Hp2 & Hc2).
  split; [lia|]. split; [by etrans|].
  intros Hk1. rewrite <- (Hc1 Hk1). apply Hc2.
  destruct Hk1 as [Hk1|Hk1]; rewrite Hk1 in Hr1; simpl in Hr1;
    destruct (readyState k2); simpl in Hr1; auto; lia.
Qed.

Lemma grows_refl (h : hook) : grows h h.
Proof. intros s k Hs. exists k. split; [done | apply later_refl]. Qed.

Lemma grows_trans (h1 h2 h3 : hook) : grows h1 h2 → grows h2 h3 → grows h1 h3.
Proof.
  intros H12 H23 s k1 Hs.
  destruct (H12 s k1 Hs) as (k2 & Hs2 & Hl12).
  destruct (H23 s k2 Hs2) as (k3 & Hs3 & Hl23).
  exists k3. split; [done|]. by eapply later_trans.
Qed.

Lemma grows_same (h h' : hook) : sockets h' = sockets h → grows h h'.
Proof. intros Heq s k Hs. exists k. rewrite Heq. split; [done|apply later_refl]. Qed.

Lemma grows_alter (f : socket → socket) (i : nat) (h h' : hook) :
  sockets h' = alter f i (sockets h) →
  (∀ k, sockets h !! i = Some k → later k (f k)) →
  grows h h'.
Proof.
  intros Heq Hf s k Hs. rewrite Heq, list_lookup_alter.
  case_decide as Hi.
  - subst s. rewrite Hs. simpl. eexists. split; [done|]. by apply Hf.
  - exists k. split; [done | apply later_refl].
Qed.

Lemma grows_app (l : list socket) (h h' : hook) :
  sockets h' = sockets h ++ l → grows h h'.
Proof.
  intros Heq s k Hs. exists k. rewrite Heq.
  split; [by apply lookup_app_l_Some | apply later_refl].
Qed.

Lemma clear_reconnect_sockets (h : hook) :
  sockets (clear_reconnect h) = sockets h.
Proof. by destruct (clear_reconnect_frame h) as (_ & _ & -> & _). Qed.

Lemma connect_grows (h : hook) : grows h (connect h).
Proof.
  unfold connect. simpl. destruct (url_ok h).
  - by apply (grows_app [mkSocket CONNECTING []]).
  - by apply grows_same.
Qed.

Lemma step_grows (e : event A) (h h' : hook) :
  step stringify e h = Some h' → grows h h'.
Proof.
  intros Hstep. destruct e as [s|s parsed|s|s|t| | |m]; simpl in Hstep.
  - destruct (sockets h !! s) as [[r snt]|] eqn:Hs; [|done]. simpl in Hstep.
    destruct r; try done. injection Hstep as <-.
    apply (grows_alter (λ k, mkSocket OPEN (sent k)) s).
    + unfold onopen. by rewrite clear_reconnect_sockets.
    + intros k Hk. rewrite Hs in Hk. injection Hk as <-.
      split; [simpl; lia|]. split; [done|]. simpl. by intros [|].
  - destruct (readyState <$> sockets h !! s) as [[]|]; try done;
      injection Hstep as <-; apply grows_same;
      by destruct (onmessage_frame parsed h) as (_ & _ & _ & _ & _ & -> & _).
  - destruct (readyState <$> sockets h !! s) as [[]|]; try done;
      injection Hstep as <-; by apply grows_same.
  - destruct (sockets h !! s) as [[r snt]|] eqn:Hs; [|done]. simpl in Hstep.
    assert (Hgo : grows h (onclose (set_readyState s CLOSED h))).
    { apply (grows_alter (λ k, mkSocket CLOSED (sent k)) s); [done|].
      intros k Hk. split; [destruct (readyState k); simpl; lia|].
      by split. }
    by destruct r; try done; injection Hstep as <-.
  - destruct (pending t h); [|done]. injection Hstep as <-.
    eapply grows_trans; [|apply connect_grows]. by apply grows_same.
  - injection Hstep as <-. apply connect_grows.
  - injection Hstep as <-. unfold disconnect.
    pose proof (clear_reconnect_sockets h) as Hsock.
    set (h0 := clear_reconnect h) in *.
    destruct (wsRef h0) as [s|]; [|by apply grows_same].
    unfold ws_close. rewrite Hsock.
    destruct (sockets h !! s) as [[r snt]|] eqn:Hs; simpl;
      [|by apply grows_same].
    destruct r; try (by apply grows_same);
      (apply (grows_alter (λ k, mkSocket CLOSING (sent k)) s);
       [by simpl; rewrite Hsock|]);
      intros k Hk; rewrite Hs in Hk; injection Hk as <-;
      (split; [simpl; lia|]); (split; [done|]); simpl; by intros [|].
  - unfold sendMessage in Hstep.
    destruct (wsRef h) as [s|]; [|injection Hstep as <-; by apply grows_same].
    destruct (sockets h !! s) as [[r snt]|] eqn:Hs; simpl in Hstep;
      [|injection Hstep as <-; by apply grows_same].
    destruct r; try (injection Hstep as <-; by apply grows_same).
    destruct (stringify m) as [frame|];
      injection Hstep as <-; [|apply grows_refl].
    apply (grows_alter (λ k, mkSocket (readyState k) (sent k ++ [frame])) s);
      [done|].
    intros k Hk. rewrite Hs in Hk. injection Hk as <-.
    split; [done|]. split; [by apply prefix_app_r|]. simpl. by intros [|].
Qed.

(** Whatever happens, a socket is never forgotten and only moves forward:
    its state goes from connecting to open to closing to closed and never
    back, the frames handed to it are never lost or reordered, only added
    to, and once it is closing or closed it gets no further frame; a closed
    socket never changes again. *)
Theorem sockets_only_move_forward (evs : list (event A)) (h h' : hook) :
  run stringify evs h = Some h' →
  grows h h' ∧
  (∀ s k, sockets h !! s = Some k → readyState k = CLOSED →
          sockets h' !! s = Some k).
Proof.
  intros Hrun.
  assert (Hg : grows h h').
  { revert h Hrun. induction evs as [|e evs IH]; intros h Hrun.
    - injection Hrun as <-. apply grows_refl.
    - simpl in Hrun.
      destruct (step stringify e h) as [h1|] eqn:H1; [|done].
      eapply grows_trans; [by eapply step_grows | by apply IH]. }
  split; [done|].
  intros s k Hs Hclosed. destruct (Hg s k Hs) as (k' & Hs' & Hr & _ & Hc).
  rewrite Hs'. f_equal. destruct k as [r snt], k' as [r' snt'].
  simpl in *. subst r. rewrite (Hc (or_intror eq_refl)).
  destruct r'; simpl in Hr; try lia. done.
Qed.

End hook_sockets.

Lemma sockets_only_move_forward_witness :
  ∃ h h',
    Hook.run (λ m : string, Some m)
      [Hook.CallConnect; Hook.SocketOpen 0%nat; Hook.CallSend "ping"]
      (Hook.initial_hook true) = Some h ∧
    Hook.run (λ m : string, Some m)
      [Hook.CallDisconnect; Hook.SocketClose 0%nat; Hook.TimerFires 1%nat]
      h = Some h' ∧
    HookSpec.grows h h'.
Proof.
  eexists _, _. split; [vm_compute; reflexivity|].
  split; [vm_compute; reflexivity|].
  refine (proj1 (sockets_only_move_forward (λ m : string, Some m)
                   [Hook.CallDisconnect; Hook.SocketClose 0%nat;
                    Hook.TimerFires 1%nat] _ _ _)).
  vm_compute; reflexivity.
Defined.

(** ** What the hook does not do *)

Section hook_limits.

Import Store Hook HookSpec.

Context {A : Type} (stringify : A → option string).

Lemma step_idle (e : event A) (h h' : hook) :
  step stringify e h = Some h' → idle h → idle h'.
Proof.
  intros Hstep (Hurl & Hsock & Htm & Hws & Href & Hconn & Hstat).
  destruct e as [s|s parsed|s|s|t| | |m]; simpl in Hstep.
  - by rewrite Hsock in Hstep.
  - by rewrite Hsock in Hstep.
  - by rewrite Hsock in Hstep.
  - by rewrite Hsock in Hstep.
  - unfold pending in Hstep. by rewrite Htm in Hstep.
  - injection Hstep as <-. unfold connect. simpl. rewrite Hurl.
    by repeat split.
  - injection Hstep as <-. unfold disconnect, clear_reconnect.
    rewrite Href, Hws. by repeat split.
  - unfold sendMessage in Hstep. rewrite Hws in Hstep.
    injection Hstep as <-. by repeat split.
Qed.

(** With a URL that [new WebSocket] rejects, nothing ever happens: whatever
    is called, no socket exists, no timeout is pending (so there is no
    retry), and the hook never reports a connection. *)
Theorem malformed_url_never_connects (evs : list (event A)) (h : hook) :
  run stringify evs (initial_hook false) = Some h →
  sockets h = [] ∧ timers h = [] ∧ wsRef h = None ∧
  isConnected h = false ∧ connectionStatus h ≠ connected.
Proof.
  intros Hrun.
  assert (Hidle : idle h).
  { eapply (run_invariant stringify idle); [|exact Hrun|].
    - apply step_idle.
    - by repeat split. }
  destruct Hidle as (_ & ? & ? & ? & _ & ? & ?). done.
Qed.


Lemma filter_still_pending (t r : nat) (l : list (nat * Z)) :
  t ≠ r →
  existsb (λ p, Nat.eqb p.1 t) l = true →
  existsb (λ p, Nat.eqb p.1 t) (List.filter (λ p, negb (Nat.eqb p.1 r)) l)
  = true.
Proof.
  intros Hne. induction l as [|p l IH]; [done|]. simpl.
  destruct (Nat.eqb_spec p.1 t) as [Hp|Hp]; simpl.
  - intros _. destruct (Nat.eqb_spec p.1 r) as [Hr|Hr]; simpl.
    + congruence.
    + by rewrite Hp, Nat.eqb_refl.
  - intros Hl. destruct (Nat.eqb p.1 r); simpl; [by apply IH|].
    destruct (Nat.eqb_spec p.1 t); [done | by apply IH].
Qed.

(** [disconnect()] cancels the remembered timeout only: a timeout that is
    pending under another identifier is still pending afterwards, and will
    reconnect. *)
Theorem disconnect_cancels_only_the_last (t : nat) (h : hook) :
  pending t h = true → reconnectTimeoutRef h ≠ Some t →
  pending t (disconnect h) = true.
Proof.
  intros Hp Href.
  assert (Hclear : pending t (clear_reconnect h) = true).
  { unfold clear_reconnect.
    destruct (reconnectTimeoutRef h) as [[|r]|]; try done.
    unfold pending in *. simpl. apply filter_still_pending; [|done].
    intros ->. done. }
  unfold disconnect. set (h0 := clear_reconnect h) in *.
  destruct (wsRef h0) as [s|]; [|done].
  unfold ws_close. by destruct (readyState <$> sockets h0 !! s) as [[]|].
Qed.

End hook_limits.

Lemma malformed_url_never_connects_witness :
  ∃ h, Hook.run (λ m : string, Some m)
         [Hook.CallConnect; Hook.CallSend "ping"; Hook.CallDisconnect;
          Hook.CallConnect]
         (Hook.initial_hook false) = Some h ∧
       Hook.sockets h = [] ∧ Hook.timers h = [].
Proof.
  eexists. split; [vm_compute; reflexivity|].
  destruct (malformed_url_never_connects (λ m : string, Some m)
              [Hook.CallConnect; Hook.CallSend "ping"; Hook.CallDisconnect;
               Hook.CallConnect] _ eq_refl) as (Hs & Ht & _).
  by split.
Defined.


Lemma disconnect_cancels_only_the_last_witness :
  ∃ h, Hook.run (λ m : string, Some m)
         [Hook.CallConnect; Hook.CallConnect; Hook.SocketClose 0%nat;
          Hook.SocketClose 1%nat] (Hook.initial_hook true) = Some h ∧
       Hook.pending 1 h = true ∧
       Hook.reconnectTimeoutRef h ≠ Some 1%nat ∧
       Hook.pending 1 (Hook.disconnect h) = true.
Proof.
  eexists. split; [vm_compute; reflexivity|].
  assert (H1 : Hook.pending 1
    {| Hook.url_ok := true; Hook.isConnected := false;
       Hook.connectionStatus := Hook.disconnected; Hook.wsRef := Some 1%nat;
       Hook.reconnectTimeoutRef := Some 2%nat;
       Hook.sockets := [Hook.mkSocket Hook.CLOSED [];
                        Hook.mkSocket Hook.CLOSED []];
       Hook.timers := [(1%nat, 3000); (2%nat, 3000)];
       Hook.next_timer := 3;
       Hook.console := ["WebSocket disconnected"; "WebSocket disconnected"];
       Hook.app := Store.initial_store |} = true) by reflexivity.
  split; [exact H1|]. split; [discriminate|].
  apply (disconnect_cancels_only_the_last 1 _ H1). discriminate.
Defined.

(** ** Incoming messages *)

Section incoming.

Import Store Hook HookSpec.

Lemma substring_whole (n : nat) :
  ∀ s, (String.length s ≤ n)%nat → String.substring 0 n s = s.
Proof.
  induction n as [|n IH]; intros [|c s] Hlen; simpl in *; try done; [lia|].
  f_equal. apply IH. lia.
Qed.

Lemma append_empty_r (s : string) : s +:+ "" = s.
Proof.
  induction s as [|c s IH]; [done|].
  change (String c (s +:+ "") = String c s). by rewrite IH.
Qed.



(** The text of a toast shows the message exactly as the notification list
    does: at most its first 80 characters, then three dots if it was cut. *)
Theorem toast_preview_is_list_preview (notification : obj) (text : string) :
  get notification "message" = VStr text →
  toast_text notification
  = Some (to_string (get notification "title") +:+ ": "
          +:+ NotificationList.preview text).
Proof.
  intros Hmsg. unfold toast_text, NotificationList.preview. rewrite Hmsg.
  do 3 f_equal.
  destruct (Nat.ltb_spec 80 (String.length text)) as [Hlong|Hshort]; [done|].
  unfold substring. simpl Nat.min. simpl Nat.max. simpl Nat.sub.
  by rewrite substring_whole, append_empty_r.
Qed.

Lemma toast_preview_is_list_preview_witness :
  let n : obj := <["title" := VStr "Monitor"]>
                   (<["message" := VStr "price changed"]> ∅) in
  get n "message" = VStr "price changed" ∧
  toast_text n = Some "Monitor: price changed".
Proof.
  cbv zeta.
  assert (H : get (<["title" := VStr "Monitor"]>
                     (<["message" := VStr "price changed"]> ∅) : obj)
                "message" = VStr "price changed") by reflexivity.
  split; [exact H|].
  rewrite (toast_preview_is_list_preview _ "price changed" H).
  reflexivity.
Defined.

(** [handleMessage] writes to the notifications only on a
    ['notification'] message and to the monitors only on a
    ['monitor_update'] message, and there only to the items, whose number
    stays the same: the loading flag, the error and the pagination of the
    monitors are never touched, nor are the interface state, the summaries,
    the current summary and the statistics; a message of any other type
    leaves the whole store as it is. *)
Theorem handleMessage_touches_nothing_else (m : message) (st : store) :
  let st' := (handleMessage m st).1 in
  ui st' = ui st ∧ summaries st' = summaries st ∧
  currentSummary st' = currentSummary st ∧ stats st' = stats st ∧
  (strict_eq (msg_type m) (VStr "notification") = false →
   notifications st' = notifications st) ∧
  (strict_eq (msg_type m) (VStr "monitor_update") = false →
   monitors st' = monitors st) ∧
  loading (monitors st') = loading (monitors st) ∧
  error (monitors st') = error (monitors st) ∧
  slice_pagination (monitors st') = slice_pagination (monitors st) ∧
  length (items (monitors st')) = length (items (monitors st)) ∧
  (strict_eq (msg_type m) (VStr "notification") = false →
   strict_eq (msg_type m) (VStr "monitor_update") = false →
   st' = st).
Proof.
  cbv zeta. unfold handleMessage.
  destruct (strict_eq (msg_type m) (VStr "notification")) eqn:Hn.
  { destruct (strict_eq (msg_type m) (VStr "monitor_update")) eqn:Hu;
      by repeat split. }
  destruct (strict_eq (msg_type m) (VStr "monitor_update")) eqn:Hu.
  { simpl. rewrite length_fmap. by repeat split. }
  by destruct (strict_eq (msg_type m) (VStr "system_status")).
Qed.

Context {A : Type} (stringify : A → option string).

(** No incoming frame, whatever it holds and whether it parses or not, can
    change the connection: the sockets, the current socket, the timeouts,
    the status and [isConnected] are as before. *)
Theorem messages_never_touch_the_connection (s : nat)
    (parsed : option message) (h h' : hook) :
  step stringify (SocketMessage s parsed) h = Some h' →
  sockets h' = sockets h ∧ wsRef h' = wsRef h ∧ timers h' = timers h ∧
  reconnectTimeoutRef h' = reconnectTimeoutRef h ∧
  next_timer h' = next_timer h ∧
  connectionStatus h' = connectionStatus h ∧
  isConnected h' = isConnected h ∧
  (parsed = None → app h' = app h).
Proof.
  simpl. intros Hstep.
  assert (h' = onmessage parsed h) as ->.
  { by destruct (readyState <$> sockets h !! s) as [[]|];
      try done; injection Hstep as <-. }
  destruct (onmessage_frame parsed h)
    as (_ & -> & -> & -> & -> & -> & -> & ->).
  repeat split. by intros ->.
Qed.

End incoming.

Lemma messages_never_touch_the_connection_witness :
  ∃ h h',
    Hook.run (λ m : string, Some m)
      [Hook.CallConnect; Hook.SocketOpen 0%nat] (Hook.initial_hook true)
    = Some h ∧
    Hook.step (λ m : string, Some m) (Hook.SocketMessage 0%nat None) h
    = Some h' ∧
    Hook.sockets h' = Hook.sockets h.
Proof.
  eexists _, _. split; [vm_compute; reflexivity|].
  split; [vm_compute; reflexivity|].
  refine (proj1 (messages_never_touch_the_connection (λ m : string, Some m)
                   0 None _ _ _)).
  vm_compute; reflexivity.
Defined.

(** ** The form: reading the interval back, and what a submit sends *)

Section form_more.

Import MonitorForm FormSpec.

Lemma digit_value_pretty_char (d : N) :
  (d < 10)%N → digit_value 10 (pretty_N_char d) = Some (Z.of_N d).
Proof.
  intros Hd. unfold pretty_N_char.
  destruct d as [|p]; [done|].
  do 4 (destruct p as [p|p|]; try done; try lia).
Qed.

Lemma parse_digits_pretty_go (x : N) :
  ∀ s, (0 < x)%N →
       parse_digits 10 None (pretty_N_go x s)
       = parse_digits 10 (Some (Z.of_N x)) s.
Proof.
  induction (N.lt_wf_0 x) as [x _ IH]. intros s Hx.
  rewrite pretty_N_go_step by done.
  assert (Hmod : (x `mod` 10 < 10)%N) by (apply N.mod_lt; lia).
  destruct (decide (x `div` 10 = 0)%N) as [Hz|Hnz].
  - rewrite Hz, pretty_N_go_0. simpl.
    rewrite digit_value_pretty_char by done. simpl. do 2 f_equal.
    pose proof (N.div_mod x 10). lia.
  - rewrite IH; [|apply N.div_lt; lia|by apply N.neq_0_lt_0]. simpl.
    rewrite digit_value_pretty_char by done. simpl. do 2 f_equal.
    pose proof (N.div_mod x 10). lia.
Qed.

Lemma decimal_pretty_go (x : N) :
  ∀ s, decimal s = true → decimal (pretty_N_go x s) = true.
Proof.
  induction (N.lt_wf_0 x) as [x _ IH]. intros s Hs.
  destruct (decide (x = 0)%N) as [->|Hx]; [by rewrite pretty_N_go_0|].
  rewrite pretty_N_go_step by lia.
  apply IH; [apply N.div_lt; lia|]. simpl.
  rewrite digit_value_pretty_char by (apply N.mod_lt; lia). done.
Qed.

Lemma decimal_pretty_N (x : N) : decimal (pretty x) = true.
Proof.
  unfold pretty, pretty_N. case_decide; [done|]. by apply decimal_pretty_go.
Qed.

Lemma parse_digits_pretty_N (x : N) :
  parse_digits 10 None (pretty x) = Some (Z.of_N x).
Proof.
  unfold pretty, pretty_N. case_decide as Hx; [by subst|].
  rewrite parse_digits_pretty_go by lia. done.
Qed.

Lemma pretty_N_not_empty (x : N) : pretty x ≠ "".
Proof.
  intros Hx. pose proof (parse_digits_pretty_N x) as Hp.
  by rewrite Hx in Hp.
Qed.

(** A text of digits has no radix prefix, no sign and no leading blank. *)
Lemma decimal_plain (s : string) :
  decimal s = true →
  parse_unsigned s = parse_digits 10 None s ∧
  skip_spaces s = s ∧ strip_sign s = (1, s).
Proof.
  destruct s as [|c1 s]; [done|].
  destruct c1 as [[] [] [] [] [] [] [] []]; simpl; try done;
    intros Hs; (split; [|done]);
    destruct s as [|c2 s]; try done;
    destruct c2 as [[] [] [] [] [] [] [] []]; try done.
Qed.

Lemma parseInt_pretty_N (x : N) : parseInt (pretty x) = VNum (Z.of_N x).
Proof.
  destruct (decimal_plain (pretty x) (decimal_pretty_N x))
    as (Hu & Hsp & Hsg).
  unfold parseInt. rewrite Hsp, Hsg, Hu, parse_digits_pretty_N.
  f_equal. lia.
Qed.

Lemma parseInt_pretty_neg (p : positive) :
  parseInt ("-" +:+ pretty (Npos p)) = VNum (Zneg p).
Proof.
  destruct (decimal_plain (pretty (Npos p)) (decimal_pretty_N (Npos p)))
    as (Hu & _ & _).
  unfold parseInt.
  change (skip_spaces ("-" +:+ pretty (N.pos p)))
    with ("-" +:+ pretty (N.pos p)).
  change (strip_sign ("-" +:+ pretty (N.pos p)))
    with (-1, pretty (N.pos p)).
  cbv beta iota. rewrite Hu, parse_digits_pretty_N. f_equal.
Qed.

(** Typing the decimal notation of an integer into the interval field
    stores that integer: [parseInt] reads back what the field shows. *)
Theorem parseInt_reads_back_decimal (n : Z) (fd : formData) :
  safe_integer n →
  parseInt (pretty n) = VNum n ∧
  check_interval (onChange (EditCheckInterval (pretty n)) fd) = VNum n.
Proof.
  intros _.
  assert (H : parseInt (pretty n) = VNum n); [|by split].
  destruct n as [|p|p].
  - done.
  - apply (parseInt_pretty_N (Npos p)).
  - apply parseInt_pretty_neg.
Qed.

Lemma parseInt_reads_back_decimal_witness :
  safe_integer 300 ∧
  check_interval (onChange (EditCheckInterval (pretty 300)) initial_formData)
  = VNum 300.
Proof.
  assert (H : safe_integer 300) by (unfold safe_integer; lia).
  split; [exact H|].
  exact (proj2 (parseInt_reads_back_decimal 300 initial_formData H)).
Defined.

(** Pressing "Create Monitor" either sends the form exactly as it stands,
    which happens only when the name and the URL are filled in, the URL is
    one the browser accepts and, for an item search, the item name is
    filled in; or it sends nothing, and the page stays as it is.  Once a
    request that was sent has succeeded, the form is closed and holds its
    initial fields again, whatever the page held by then, and the monitors
    and the statistics are loaded again; once it has failed, the page is
    left as it is by then, the form open with what the user typed, and the
    error message is shown in an alert. *)
Theorem submit_sends_the_form_or_keeps_it (valid_url : string → bool)
    (fd : formData) :
  match submit valid_url fd with
  | (Some body, afterwards) =>
      body = fd ∧
      name fd ≠ "" ∧ url fd ≠ "" ∧ valid_url (url fd) = true ∧
      (monitor_type fd = "item_search" → item_name fd ≠ "") ∧
      (∀ p, afterwards Resolved p
            = ({| showCreateForm := false; fields := initial_formData |},
               [LoadMonitors; LoadStats])) ∧
      (∀ message p,
         (afterwards (Rejected message) p).1 = p ∧
         Alert ("Error creating monitor: " +:+ message)
           ∈ (afterwards (Rejected message) p).2 ∧
         (LoadMonitors ∉ (afterwards (Rejected message) p).2) ∧
         (LoadStats ∉ (afterwards (Rejected message) p).2))
  | (None, afterwards) => ∀ r p, afterwards r p = (p, [])
  end.
Proof.
  unfold submit. destruct (form_valid valid_url fd) eqn:Hv; [|done].
  simpl. unfold form_valid, required in Hv.
  apply andb_true_iff in Hv as [Hv _].
  apply andb_true_iff in Hv as [Hv Hitem].
  apply andb_true_iff in Hv as [Hv Hvalid].
  apply andb_true_iff in Hv as [Hname Hurl].
  apply negb_true_iff, String.eqb_neq in Hname, Hurl.
  split; [done|]. split; [done|]. split; [done|]. split; [done|].
  split.
  { intros Htype Hempty. rewrite Htype, Hempty in Hitem. done. }
  split; [done|]. intros message p.
  split; [done|]. split.
  { apply elem_of_cons. right. apply elem_of_cons. by left. }
  split; intros Hin;
    apply elem_of_cons in Hin as [Hin|Hin]; try discriminate Hin;
    apply elem_of_cons in Hin as [Hin|Hin]; try discriminate Hin;
    by apply elem_of_nil in Hin.
Qed.

Lemma submitted_number_within_bounds_witness :
  ∃ body,
    (submit (String.prefix "https://")
       (fill [EditName "Price watch"; EditUrl "https://example.com/item";
              EditCheckInterval "900"] initial_formData)).1 = Some body ∧
    within_bounds (check_interval body).
Proof.
  eexists. split; [vm_compute; reflexivity|].
  destruct (submitted_number_within_bounds (String.prefix "https://")
              [EditName "Price watch"; EditUrl "https://example.com/item";
               EditCheckInterval "900"] _ eq_refl) as [H|H];
    [exact H | discriminate H].
Defined.

End form_more.

(** ** The pages *)

Section pages.

Import Pages.

Lemma div_between (d c lo hi : Z) :
  0 < c → lo * c ≤ d < hi * c → lo ≤ d / c < hi.
Proof.
  intros Hc [Hlo Hhi]. split.
  - apply Z.div_le_lower_bound; lia.
  - apply Z.div_lt_upper_bound; lia.
Qed.

(** For an interval the form accepts (60 to 86400 seconds) the monitor card
    shows whole minutes, 1 to 59, or whole hours, 1 to 24, never seconds;
    the number is rounded down, so it is off by less than one unit. *)
Theorem formatInterval_rounds_down (seconds : Z) :
  60 ≤ seconds ≤ 86400 →
  (seconds < 3600 ∧
   formatInterval seconds = pretty (seconds / 60) +:+ "m" ∧
   1 ≤ seconds / 60 ≤ 59 ∧
   60 * (seconds / 60) ≤ seconds < 60 * (seconds / 60) + 60) ∨
  (3600 ≤ seconds ∧
   formatInterval seconds = pretty (seconds / 3600) +:+ "h" ∧
   1 ≤ seconds / 3600 ≤ 24 ∧
   3600 * (seconds / 3600) ≤ seconds < 3600 * (seconds / 3600) + 3600).
Proof.
  intros Hs. unfold formatInterval.
  destruct (Z.ltb_spec seconds 60); [lia|].
  destruct (Z.ltb_spec seconds 3600); [left | right].
  - pose proof (Z.div_mod seconds 60).
    pose proof (Z.mod_pos_bound seconds 60).
    pose proof (div_between seconds 60 1 60).
    repeat split; lia.
  - pose proof (Z.div_mod seconds 3600).
    pose proof (Z.mod_pos_bound seconds 3600).
    pose proof (div_between seconds 3600 1 25).
    repeat split; lia.
Qed.

Lemma formatInterval_rounds_down_witness :
  60 ≤ 5400 ≤ 86400 ∧ formatInterval 5400 = "1h".
Proof.
  assert (H : 60 ≤ 5400 ≤ 86400) by lia.
  split; [exact H|].
  destruct (formatInterval_rounds_down 5400 H)
    as [(Hlt & _)|(_ & Heq & _)]; [lia|].
  rewrite Heq. reflexivity.
Defined.

Lemma checked_app (a b : list check_effect) :
  checked (a ++ b) = checked a ++ checked b.
Proof. unfold checked. apply omap_app. Qed.

Lemma checked_check_each (outcome : nat → bool) (l : list obj) :
  ∀ k, checked (check_each outcome k l) = (λ m, get m "id") <$> l.
Proof.
  induction l as [|m l IH]; intros k; [done|].
  change (checked ([CheckMonitor (get m "id")]
                   ++ (if outcome k then [] else [CheckFailed])
                   ++ check_each outcome (S k) l)
          = get m "id" :: ((λ m, get m "id") <$> l)).
  rewrite !checked_app, IH. by destruct (outcome k).
Qed.

(** "Check All" sends one check request for every monitor whose
    [is_active] is truthy, in the order of the list and whatever the
    outcome of the requests before it, and none for the other monitors;
    it then reloads the monitors and the statistics.  Without active
    monitors, or when the user does not confirm, no request is sent and
    nothing is reloaded. *)
Theorem check_all_checks_every_active_monitor (outcome : nat → bool)
    (monitors : list obj) :
  let active := List.filter (λ m, truthy (get m "is_active")) monitors in
  checked (handleCheckAllMonitors true outcome monitors)
  = (λ m, get m "id") <$> active ∧
  (active ≠ [] →
   ∃ before, handleCheckAllMonitors true outcome monitors
             = before ++ [LoadMonitors; LoadStats]) ∧
  (active = [] →
   handleCheckAllMonitors true outcome monitors
   = [Alert "No active monitors to check"]) ∧
  (active ≠ [] →
   handleCheckAllMonitors false outcome monitors
   = [Confirm (length active)]).
Proof.
  cbv zeta. unfold handleCheckAllMonitors.
  destruct (List.filter _ monitors) as [|m active] eqn:Hact; simpl.
  - by repeat split.
  - split.
    + unfold checked. simpl. f_equal.
      change (checked
                (((if outcome 0%nat then [] else [CheckFailed])
                  ++ check_each outcome 1 active) ++ [LoadMonitors; LoadStats])
              = (λ m, get m "id") <$> active).
      rewrite !checked_app, checked_check_each.
      destruct (outcome 0%nat); simpl; by rewrite app_nil_r.
    + split; [|by split].
      intros _.
      exists (Confirm (S (length active)) :: CheckMonitor (get m "id")
              :: (if outcome 0%nat then [] else [CheckFailed])
              ++ check_each outcome 1 active).
      reflexivity.
Qed.

Lemma same_value_zero_strict (x id : value) :
  strict_eq id id = true → same_value_zero x id = strict_eq x id.
Proof. by destruct x, id. Qed.

Lemma strict_eq_iff (x id : value) :
  strict_eq id id = true → strict_eq x id = true ↔ x = id.
Proof.
  intros Hid. split; [apply strict_eq_eq | by intros ->].
Qed.

Lemma array_includes_elem_of (l : list value) (id : value) :
  strict_eq id id = true → array_includes l id = true ↔ id ∈ l.
Proof.
  intros Hid. unfold array_includes. rewrite existsb_exists. split.
  - intros (x & Hx & Heq). rewrite same_value_zero_strict in Heq by done.
    apply strict_eq_eq in Heq as ->. by apply list_elem_of_In.
  - intros Hin. exists id. split; [by apply list_elem_of_In|].
    by rewrite same_value_zero_strict.
Qed.

(** Clicking the check box of a notification toggles it in the selection:
    for an id that compares equal to itself and a selection without
    duplicates, the id is selected afterwards exactly if it was not
    before, every other id is selected exactly if it was before, and the
    selection is still without duplicates. *)
Theorem select_toggles_one (id : value) (prev : list value) :
  strict_eq id id = true → NoDup prev →
  let next := handleSelectNotification id prev in
  (id ∈ next ↔ id ∉ prev) ∧
  (∀ x, x ≠ id → x ∈ next ↔ x ∈ prev) ∧
  NoDup next.
Proof.
  intros Hid Hnd. cbv zeta. unfold handleSelectNotification.
  destruct (array_includes prev id) eqn:Hinc.
  - apply array_includes_elem_of in Hinc; [|done].
    split; [|split].
    + rewrite filter_elem_of, Hid. simpl. split; [by intros [_ ?] | done].
    + intros x Hx. rewrite filter_elem_of, negb_true_iff.
      split; [by intros [? _]|]. intros Hin. split; [done|].
      destruct (strict_eq x id) eqn:Heq; [|done].
      by apply strict_eq_eq in Heq.
    + eapply sublist_NoDup; [exact Hnd | apply filter_sublist].
  - assert (Hnot : id ∉ prev).
    { intros Hin. apply array_includes_elem_of in Hin; [|done]. congruence. }
    split; [|split].
    + rewrite elem_of_app, list_elem_of_singleton.
      split; [done | intros _; by right].
    + intros x Hx. rewrite elem_of_app, list_elem_of_singleton.
      split; [by intros [?|?] | by left].
    + apply NoDup_app. split; [done|]. split; [|apply NoDup_singleton].
      intros x Hx Hxid. apply list_elem_of_singleton in Hxid as ->. done.
Qed.

Lemma select_toggles_one_witness :
  strict_eq (VStr "n1") (VStr "n1") = true ∧
  NoDup [VStr "n1"; VStr "n2"] ∧
  NoDup (handleSelectNotification (VStr "n1") [VStr "n1"; VStr "n2"]).
Proof.
  assert (Hnd : NoDup [VStr "n1"; VStr "n2"]).
  { apply NoDup_cons. split.
    - intros Hin. apply list_elem_of_singleton in Hin. discriminate Hin.
    - apply NoDup_singleton. }
  split; [reflexivity|]. split; [exact Hnd|].
  exact (proj2 (proj2 (select_toggles_one (VStr "n1")
                         [VStr "n1"; VStr "n2"] eq_refl Hnd))).
Defined.

Lemma substring_of_prefix (first rest : string) :
  String.substring 0 (String.length first) (first +:+ rest) = first.
Proof.
  induction first as [|c first IH]; [by destruct rest|].
  change (String c (String.substring 0 (String.length first)
                      (first +:+ rest)) = String c first).
  by rewrite IH.
Qed.

Lemma length_append (a b : string) :
  String.length (a +:+ b) = (String.length a + String.length b)%nat.
Proof.
  induction a as [|c a IH]; [done|].
  change (S (String.length (a +:+ b))
          = S (String.length a + String.length b)).
  by rewrite IH.
Qed.

Lemma truncate_long (t : string) (n : nat) :
  (n < String.length t)%nat →
  ∃ first rest, t = first +:+ rest ∧ String.length first = n ∧
                substring t 0 n = first.
Proof.
  intros Hlen. destruct (substring_prefix n t) as (rest & Ht & Hl); [lia|].
  exists (String.substring 0 n t), rest. split; [done|]. split; [done|].
  unfold substring. by rewrite Nat.min_0_l, Nat.max_0_l, Nat.sub_0_r.
Qed.

(** [truncateText] keeps a text of at most [maxLength] characters as it is
    and cuts a longer one to its first [maxLength] characters followed by
    three dots, so the result has at most [maxLength + 3] characters;
    truncating the result again changes nothing; the Dashboard and the
    Summaries versions agree on every text, and differ on a missing text
    only, which the first shows as empty and on which the second throws. *)
Theorem truncateText_caps (t : string) (maxLength : nat) :
  let r := truncateText_dashboard (Some t) maxLength in
  ((String.length t ≤ maxLength)%nat → r = t) ∧
  ((maxLength < String.length t)%nat →
   ∃ first rest, t = first +:+ rest ∧ String.length first = maxLength ∧
                 r = first +:+ "...") ∧
  (String.length r ≤ maxLength + 3)%nat ∧
  truncateText_dashboard (Some r) maxLength = r ∧
  truncateText_summaries (Some t) maxLength = Some r ∧
  truncateText_dashboard None maxLength = "" ∧
  truncateText_summaries None maxLength = None.
Proof.
  cbv zeta.
  assert (Hcut : ∀ u, (maxLength < String.length u)%nat →
            truncateText_dashboard (Some u) maxLength
            = substring u 0 maxLength +:+ "...").
  { intros u Hu. unfold truncateText_dashboard.
    destruct (String.eqb_spec u "") as [->|_]; [simpl in Hu; lia|].
    by destruct (Nat.ltb_spec maxLength (String.length u)); [|lia]. }
  assert (Hkeep : ∀ u, (String.length u ≤ maxLength)%nat →
            truncateText_dashboard (Some u) maxLength = u).
  { intros u Hu. unfold truncateText_dashboard.
    destruct (String.eqb_spec u "") as [->|_]; [done|].
    by destruct (Nat.ltb_spec maxLength (String.length u)); [lia|]. }
  split; [apply Hkeep|].
  split.
  { intros Hlong. rewrite Hcut by done.
    destruct (truncate_long t maxLength Hlong) as (first & rest & ? & ? & ->).
    by exists first, rest. }
  destruct (Nat.le_gt_cases (String.length t) maxLength) as [Hshort|Hlong].
  - rewrite !Hkeep by done.
    split; [lia|]. split; [done|]. split; [|done].
    simpl. by destruct (Nat.leb_spec (String.length t) maxLength); [|lia].
  - rewrite Hcut by done.
    destruct (truncate_long t maxLength Hlong)
      as (first & rest & Ht & Hl & Hsub).
    rewrite Hsub.
    split; [rewrite length_append; simpl; lia|].
    split.
    + rewrite Hcut by (rewrite length_append; simpl; lia).
      unfold substring. rewrite Nat.min_0_l, Nat.max_0_l, Nat.sub_0_r.
      by rewrite <- Hl, substring_of_prefix.
    + split; [|done]. simpl. rewrite Hsub.
      by destruct (Nat.leb_spec (String.length t) maxLength); [lia|].
Qed.

Lemma relative_time_just_now (diffMs : Z) :
  diffMs < 60000 → relative_time diffMs = Some "Just now".
Proof.
  intros Hd. unfold relative_time.
  assert (diffMs / 60000 < 1) by (apply Z.div_lt_upper_bound; lia).
  by destruct (Z.ltb_spec (diffMs / 60000) 1); [|lia].
Qed.

(** The relative time the pages show: a date less than a minute old, or in
    the future, reads "Just now"; then whole minutes from 1 to 59, whole
    hours from 1 to 23, whole days from 1 to 6, each rounded down; from a
    week on the pages show the date itself. *)
Theorem relative_time_buckets (diffMs : Z) :
  (diffMs < 60000 → relative_time diffMs = Some "Just now") ∧
  (60000 ≤ diffMs < 3600000 →
   1 ≤ diffMs / 60000 ≤ 59 ∧
   relative_time diffMs = Some (pretty (diffMs / 60000) +:+ "m ago")) ∧
  (3600000 ≤ diffMs < 86400000 →
   1 ≤ diffMs / 3600000 ≤ 23 ∧
   relative_time diffMs = Some (pretty (diffMs / 3600000) +:+ "h ago")) ∧
  (86400000 ≤ diffMs < 604800000 →
   1 ≤ diffMs / 86400000 ≤ 6 ∧
   relative_time diffMs = Some (pretty (diffMs / 86400000) +:+ "d ago")) ∧
  (604800000 ≤ diffMs → relative_time diffMs = None).
Proof.
  unfold relative_time.
  split; [|split; [|split; [|split]]]; intros Hd.
  - fold (relative_time diffMs). by apply relative_time_just_now.
  - pose proof (div_between diffMs 60000 1 60).
    split; [lia|].
    destruct (Z.ltb_spec (diffMs / 60000) 1); [lia|].
    by destruct (Z.ltb_spec (diffMs / 60000) 60); [|lia].
  - pose proof (div_between diffMs 60000 60 1440).
    pose proof (div_between diffMs 3600000 1 24).
    split; [lia|].
    destruct (Z.ltb_spec (diffMs / 60000) 1); [lia|].
    destruct (Z.ltb_spec (diffMs / 60000) 60); [lia|].
    by destruct (Z.ltb_spec (diffMs / 3600000) 24); [|lia].
  - pose proof (div_between diffMs 60000 1440 10080).
    pose proof (div_between diffMs 3600000 24 168).
    pose proof (div_between diffMs 86400000 1 7).
    split; [lia|].
    destruct (Z.ltb_spec (diffMs / 60000) 1); [lia|].
    destruct (Z.ltb_spec (diffMs / 60000) 60); [lia|].
    destruct (Z.ltb_spec (diffMs / 3600000) 24); [lia|].
    by destruct (Z.ltb_spec (diffMs / 86400000) 7); [|lia].
  - assert (10080 ≤ diffMs / 60000) by (apply Z.div_le_lower_bound; lia).
    assert (168 ≤ diffMs / 3600000) by (apply Z.div_le_lower_bound; lia).
    assert (7 ≤ diffMs / 86400000) by (apply Z.div_le_lower_bound; lia).
    destruct (Z.ltb_spec (diffMs / 60000) 1); [lia|].
    destruct (Z.ltb_spec (diffMs / 60000) 60); [lia|].
    destruct (Z.ltb_spec (diffMs / 3600000) 24); [lia|].
    by destruct (Z.ltb_spec (diffMs / 86400000) 7); [lia|].
Qed.

(** The copies of [formatDate] agree on every date that parses; they differ
    on a missing date ("Never" on the Monitors page, "Unknown" elsewhere)
    and on an invalid one, which only the Monitors page reports as
    "Invalid date". *)
Theorem formatDate_copies_agree (parse : string → option Z)
    (locale : Z → string) (invalid : string) (now date : Z) (s : string) :
  s ≠ "" → parse (s +:+ "Z") = Some date →
  formatDate_monitors parse locale now (Some s)
  = formatDate_pages parse locale invalid now (Some s) ∧
  (now < date + 60000 →
   formatDate_monitors parse locale now (Some s) = "Just now").
Proof.
  intros Hs Hparse. unfold formatDate_monitors, formatDate_pages.
  destruct (String.eqb_spec s "") as [|_]; [done|]. rewrite Hparse.
  split; [done|]. intros Hnow.
  rewrite relative_time_just_now; [done | lia].
Qed.

Lemma formatDate_copies_agree_witness :
  let parse : string → option Z := λ _, Some 1000 in
  let locale : Z → string := λ _, "1/1/1970" in
  "2024-01-01T00:00:00" ≠ "" ∧
  parse ("2024-01-01T00:00:00" +:+ "Z") = Some 1000 ∧
  formatDate_monitors parse locale 500 (Some "2024-01-01T00:00:00")
  = formatDate_pages parse locale "Invalid Date" 500
      (Some "2024-01-01T00:00:00").
Proof.
  cbv zeta. split; [discriminate|]. split; [reflexivity|].
  refine (proj1 (formatDate_copies_agree (λ _, Some 1000) (λ _, "1/1/1970")
                   "Invalid Date" 500 1000 "2024-01-01T00:00:00" _ _)).
  - discriminate.
  - reflexivity.
Defined.

End pages.

(** ** The value shown on a monitor card *)

Section current_value.

Import CurrentValue.

Lemma once_inv (p : N → bool) (k : ustring → option (ustring * ustring))
    (l m r : ustring) :
  once p k l = Some (m, r) →
  ∃ u l' m', l = u :: l' ∧ p u = true ∧ m = u :: m' ∧ k l' = Some (m', r).
Proof.
  unfold once. destruct l as [|u l']; [done|].
  destruct (p u) eqn:Hp; [|done].
  destruct (k l') as [[m' r']|] eqn:Hk; [|done].
  intros [= <- <-]. by exists u, l', m'.
Qed.

Lemma once_splits (p : N → bool) (k : ustring → option (ustring * ustring)) :
  splits k → splits (once p k).
Proof.
  intros Hk l m r Hm.
  apply once_inv in Hm as (u & l' & m' & -> & _ & -> & Hm).
  simpl. f_equal. by apply Hk.
Qed.

Lemma star_splits (p : N → bool) (k : ustring → option (ustring * ustring)) :
  splits k → splits (star p k).
Proof.
  intros Hk l. induction l as [|u l' IH]; intros m r Hm; simpl in Hm.
  - by apply Hk.
  - destruct (p u); [|by apply Hk].
    destruct (star p k l') as [[m' r']|] eqn:Hs; [|by apply Hk].
    injection Hm as <- <-. simpl. f_equal. by apply IH.
Qed.

Lemma match_here_splits (pat : pattern) : splits (match_here pat).
Proof.
  induction pat as [|[p q] rest IH]; intros l m r Hm; simpl in Hm.
  - by injection Hm as <- <-.
  - destruct q.
    + by apply (once_splits p _ IH) in Hm.
    + destruct (once p (match_here rest) l) as [x|] eqn:Ho.
      * injection Hm as ->. by apply (once_splits p _ IH) in Ho.
      * by apply IH.
    + by apply (star_splits p _ IH) in Hm.
    + by apply (once_splits p _ (star_splits p _ IH)) in Hm.
Qed.

Lemma star_succeeds (p : N → bool) (k : ustring → option (ustring * ustring))
    (l : ustring) :
  is_Some (k l) → is_Some (star p k l).
Proof.
  intros Hk. destruct l as [|u l']; simpl; [done|].
  destruct (p u); [|done]. by destruct (star p k l') as [[m r]|].
Qed.

Lemma star_total (p : N → bool) (k : ustring → option (ustring * ustring)) :
  (∀ l, is_Some (k l)) → ∀ l, is_Some (star p k l).
Proof. intros Hk l. by apply star_succeeds. Qed.

Lemma once_succeeds (p : N → bool) (k : ustring → option (ustring * ustring))
    (u : N) (l : ustring) :
  p u = true → is_Some (k l) → is_Some (once p k (u :: l)).
Proof. intros Hp [[m r] Hk]. simpl. by rewrite Hp, Hk. Qed.

(** The end of both patterns, [\.?\d*], matches whatever follows. *)
Lemma fraction_total (l : ustring) :
  is_Some (match_here [(is_dot, Optional); (is_d, Many0)] l).
Proof.
  simpl.
  assert (Hd : ∀ l, is_Some (star is_d (λ l, Some ([], l)) l)).
  { apply star_total. by eexists. }
  destruct (once is_dot _ l); [done | apply Hd].
Qed.

Lemma number_matches (u : N) (l : ustring) :
  is_dc u = true → is_Some (match_here number_pattern (u :: l)).
Proof.
  intros Hu. unfold number_pattern.
  change (is_Some (once is_dc
                     (star is_dc
                        (match_here [(is_dot, Optional); (is_d, Many0)]))
                     (u :: l))).
  apply once_succeeds; [done|]. apply star_total, fraction_total.
Qed.

Lemma price_matches (u : N) (l : ustring) :
  is_dc u = true → is_Some (match_here price_pattern (u :: l)).
Proof.
  intros Hu. unfold price_pattern.
  change (is_Some
            match once is_currency
                    (match_here ((is_ws, Many0) :: number_pattern)) (u :: l)
            with
            | Some x => Some x
            | None => star is_ws (match_here number_pattern) (u :: l)
            end).
  destruct (once is_currency _ (u :: l)); [done|].
  by apply star_succeeds, number_matches.
Qed.

Lemma number_match_starts_with_dc (l m r : ustring) :
  match_here number_pattern l = Some (m, r) →
  ∃ u l', l = u :: l' ∧ is_dc u = true.
Proof.
  intros Hm.
  change (once is_dc
            (star is_dc (match_here [(is_dot, Optional); (is_d, Many0)])) l
          = Some (m, r)) in Hm.
  apply once_inv in Hm as (u & l' & _ & -> & Hu & _). by exists u, l'.
Qed.

Lemma number_match_has_dc (l m r : ustring) :
  match_here number_pattern l = Some (m, r) → existsb is_dc m = true.
Proof.
  intros Hm.
  change (once is_dc
            (star is_dc (match_here [(is_dot, Optional); (is_d, Many0)])) l
          = Some (m, r)) in Hm.
  apply once_inv in Hm as (u & l' & m' & _ & Hu & -> & _).
  simpl. by rewrite Hu.
Qed.

Lemma star_keeps_dc (p : N → bool) (k : ustring → option (ustring * ustring)) :
  (∀ l m r, k l = Some (m, r) → existsb is_dc m = true) →
  ∀ l m r, star p k l = Some (m, r) → existsb is_dc m = true.
Proof.
  intros Hk l. induction l as [|u l' IH]; intros m r Hm; simpl in Hm.
  - by eapply Hk.
  - destruct (p u); [|by eapply Hk].
    destruct (star p k l') as [[m' r']|] eqn:Hs; [|by eapply Hk].
    injection Hm as <- <-. simpl. rewrite (IH m' r' eq_refl).
    apply orb_true_r.
Qed.

Lemma price_match_has_dc (l m r : ustring) :
  match_here price_pattern l = Some (m, r) → existsb is_dc m = true.
Proof.
  intros Hm.
  assert (Hws : ∀ l m r,
    match_here ((is_ws, Many0) :: number_pattern) l = Some (m, r) →
    existsb is_dc m = true).
  { intros l0 m0 r0. apply star_keeps_dc. apply number_match_has_dc. }
  change (match once is_currency
                  (match_here ((is_ws, Many0) :: number_pattern)) l
          with
          | Some x => Some x
          | None => match_here ((is_ws, Many0) :: number_pattern) l
          end = Some (m, r)) in Hm.
  destruct (once is_currency _ l) as [x|] eqn:Ho.
  - injection Hm as ->.
    apply once_inv in Ho as (u & l' & m' & _ & _ & -> & Hk).
    simpl. rewrite (Hws _ _ _ Hk). apply orb_true_r.
  - by eapply Hws.
Qed.

Lemma search_piece (pat : pattern) (l m : ustring) :
  search pat l = Some m →
  ∃ before after, l = before ++ m ++ after ∧
                  match_here pat (m ++ after) = Some (m, after).
Proof.
  induction l as [|u l IH]; simpl.
  - destruct (match_here pat []) as [[m' r]|] eqn:Hm; [|done].
    intros [= ->]. exists [], r.
    pose proof (match_here_splits pat _ _ _ Hm) as Heq.
    simpl. by rewrite <- Heq.
  - destruct (match_here pat (u :: l)) as [[m' r]|] eqn:Hm.
    + intros [= ->]. exists [], r.
      pose proof (match_here_splits pat _ _ _ Hm) as Heq.
      simpl. by rewrite <- Heq.
    + intros Hs. destruct (IH Hs) as (before & after & -> & Hma).
      by exists (u :: before), after.
Qed.

Lemma search_price_finds (l : ustring) :
  existsb is_dc l = true → is_Some (search price_pattern l).
Proof.
  induction l as [|u l IH]; [done|]. intros Hex.
  change (is_Some match match_here price_pattern (u :: l) with
                  | Some (m, _) => Some m
                  | None => search price_pattern l
                  end).
  destruct (match_here price_pattern (u :: l)) as [[m r]|] eqn:Hm; [done|].
  apply IH. simpl in Hex. destruct (is_dc u) eqn:Hu; [|done].
  destruct (price_matches u l Hu) as [x Hx]. congruence.
Qed.

Lemma search_none_has_no_dc (l : ustring) :
  search price_pattern l = None → existsb is_dc l = false.
Proof.
  intros Hs. destruct (existsb is_dc l) eqn:Hex; [|done].
  destruct (search_price_finds l Hex) as [m Hm]. congruence.
Qed.

Lemma search_number_needs_dc (l : ustring) :
  existsb is_dc l = false → search number_pattern l = None.
Proof.
  induction l as [|u l IH]; intros Hex.
  - simpl. destruct (match_here number_pattern []) as [[m r]|] eqn:Hm; [|done].
    by apply number_match_starts_with_dc in Hm as (? & ? & ? & _).
  - simpl in Hex. apply orb_false_iff in Hex as [Hu Hl].
    change (match match_here number_pattern (u :: l) with
            | Some (m, _) => Some m
            | None => search number_pattern l
            end = None).
    destruct (match_here number_pattern (u :: l)) as [[m r]|] eqn:Hm.
    + apply number_match_starts_with_dc in Hm as (u' & l' & [= <- <-] & Hu').
      congruence.
    + by apply IH.
Qed.

Lemma cap100_length (l : ustring) : (length (cap100 l) ≤ 103)%nat.
Proof.
  unfold cap100. destruct (Nat.ltb_spec 100 (length l)) as [Hlt|Hle].
  - rewrite length_app, length_take.
    change (length (units "...")) with 3%nat. lia.
  - lia.
Qed.

(** For a price monitor whose value holds a digit or a comma, the card
    shows a piece of the value, which itself holds a digit or a comma (the
    first stretch of digits and commas, with the currency sign and blanks
    just before it and the decimals after it); otherwise it shows the
    value, cut to 100 characters.  The second pattern of the source can
    never match where the first did not. *)
Theorem price_card_shows_a_piece (item_name : option ustring)
    (value : ustring) :
  value ≠ [] →
  let shown := formatCurrentValue (units "price") item_name (Some value) in
  (search price_pattern value = None → search number_pattern value = None) ∧
  (existsb is_dc value = true →
   piece shown value ∧ existsb is_dc shown = true) ∧
  (existsb is_dc value = false → shown = cap100 value).
Proof.
  intros Hne. cbv zeta.
  assert (Hshown : formatCurrentValue (units "price") item_name (Some value)
                   = match search price_pattern value with
                     | Some m => m
                     | None =>
                         match search number_pattern value with
                         | Some m => m
                         | None => cap100 value
                         end
                     end).
  { unfold formatCurrentValue. destruct value as [|u value]; [done|].
    assert (Hitem : bool_decide (units "price" = units "item_search") = false)
      by done.
    assert (Hprice : bool_decide (units "price" = units "price") = true)
      by done.
    assert (Hcontent : bool_decide (units "price" = units "content") = false)
      by done.
    assert (Hsel : bool_decide (units "price" = units "selector") = false)
      by done.
    rewrite Hitem, Hprice, Hcontent, Hsel.
    destruct item_name as [[|? ?]|];
      destruct (search price_pattern (u :: value)); try done;
      destruct (search number_pattern (u :: value)); done. }
  rewrite Hshown. clear Hshown.
  split; [intros Hs; by apply search_number_needs_dc, search_none_has_no_dc|].
  split.
  - intros Hex. destruct (search_price_finds value Hex) as [m Hm].
    rewrite Hm. apply search_piece in Hm as (before & after & -> & Hm).
    split; [by exists before, after | by eapply price_match_has_dc].
  - intros Hex.
    destruct (search price_pattern value) as [m|] eqn:Hm.
    + apply search_piece in Hm as (before & after & -> & Hm).
      apply price_match_has_dc in Hm.
      rewrite !existsb_app, Hm, orb_true_r in Hex. done.
    + by rewrite (search_number_needs_dc value Hex).
Qed.

Lemma price_card_shows_a_piece_witness :
  units "Now $1,200.00 only" ≠ [] ∧
  piece (units "$1,200.00") (units "Now $1,200.00 only").
Proof.
  assert (Hne : units "Now $1,200.00 only" ≠ []) by discriminate.
  split; [exact Hne|].
  exact (proj1 (proj1 (proj2 (price_card_shows_a_piece
                                None (units "Now $1,200.00 only") Hne))
                  eq_refl)).
Defined.

Lemma tag_free_nil : tag_free [].
Proof. intros i j _ Hi. by rewrite lookup_nil in Hi. Qed.

Lemma tag_free_cons (u : N) (l : ustring) :
  (u = 60%N → 62%N ∉ l) → tag_free l → tag_free (u :: l).
Proof.
  intros Hu Hl i j Hij Hi Hj.
  destruct j as [|j]; [lia|]. simpl in Hj.
  destruct i as [|i]; simpl in Hi.
  - injection Hi as ->. apply (Hu eq_refl). by eapply list_elem_of_lookup_2.
  - apply (Hl i j); [lia | done | done].
Qed.

Lemma tag_free_piece (m l : ustring) : piece m l → tag_free l → tag_free m.
Proof.
  intros (before & after & ->) Hl i j Hij Hi Hj.
  apply (Hl (length before + i)%nat (length before + j)%nat); [lia | |].
  - rewrite lookup_app_r by lia.
    replace (length before + i - length before)%nat with i by lia.
    by apply lookup_app_l_Some.
  - rewrite lookup_app_r by lia.
    replace (length before + j - length before)%nat with j by lia.
    by apply lookup_app_l_Some.
Qed.

Lemma tag_free_dots (l : ustring) : tag_free l → tag_free (l ++ units "...").
Proof.
  intros Hl i j Hij Hi Hj.
  destruct (decide (j < length l)%nat) as [Hjl|Hjl].
  - rewrite lookup_app_l in Hi by lia. rewrite lookup_app_l in Hj by lia.
    by apply (Hl i j).
  - rewrite lookup_app_r in Hj by lia.
    apply list_elem_of_lookup_2 in Hj.
    change (units "...") with [46%N; 46%N; 46%N] in Hj.
    rewrite !elem_of_cons, elem_of_nil in Hj.
    by destruct Hj as [?|[?|[?|?]]].
Qed.

Lemma tag_free_cap100 (l : ustring) : tag_free l → tag_free (cap100 l).
Proof.
  intros Hl. unfold cap100. destruct (100 <? length l)%nat; [|done].
  apply tag_free_dots. apply (tag_free_piece _ l); [|done].
  exists [], (drop 100 l). simpl. by rewrite take_drop.
Qed.

Lemma drop_ws_suffix (l : ustring) : ∃ k, l = k ++ drop_ws l.
Proof.
  induction l as [|u l [k IH]]; [by exists []|]. simpl.
  destruct (is_ws u).
  - exists (u :: k). simpl. by f_equal.
  - by exists [].
Qed.

Lemma trim_piece (l : ustring) : piece (trim l) l.
Proof.
  unfold trim. destruct (drop_ws_suffix l) as [k Hk].
  destruct (drop_ws_suffix (reverse (drop_ws l))) as [k' Hk'].
  exists k, (reverse k').
  rewrite <- reverse_app, <- Hk', reverse_involutive. exact Hk.
Qed.

Lemma remove_all_S (pat : pattern) (fuel : nat) (l : ustring) :
  remove_all (S fuel) pat l
  = match match_here pat l with
    | Some (_ :: _, r) => remove_all fuel pat r
    | _ => match l with
           | u :: l' => u :: remove_all fuel pat l'
           | [] => []
           end
    end.
Proof. reflexivity. Qed.

Lemma remove_all_elem_of (pat : pattern) (fuel : nat) (l : ustring) (x : N) :
  x ∈ remove_all fuel pat l → x ∈ l.
Proof.
  revert l. induction fuel as [|fuel IH]; intros l; simpl; [done|].
  destruct (match_here pat l) as [[[|u m] r]|] eqn:Hm.
  - destruct l as [|u l]; [done|].
    rewrite !elem_of_cons. intros [->|Hx]; [by left | right; by apply IH].
  - intros Hx. apply IH in Hx. apply match_here_splits in Hm as ->.
    apply elem_of_app. by right.
  - destruct l as [|u l]; [done|].
    rewrite !elem_of_cons. intros [->|Hx]; [by left | right; by apply IH].
Qed.

Lemma tag_closes (l : ustring) :
  62%N ∈ l → is_Some (star not_gt (once is_gt (λ l, Some ([], l))) l).
Proof.
  induction l as [|u l IH]; [by intros ?%elem_of_nil|].
  intros Hin. simpl. destruct (not_gt u) eqn:Hu.
  - apply elem_of_cons in Hin as [<-|Hin]; [done|].
    destruct (IH Hin) as [[m r] ->]. done.
  - unfold not_gt in Hu. apply negb_false_iff in Hu.
    unfold is_gt. by rewrite Hu.
Qed.

Lemma tag_matches (l : ustring) :
  62%N ∈ l → is_Some (match_here tag_pattern (60%N :: l)).
Proof.
  intros Hin.
  change (is_Some
            (once is_lt (star not_gt (once is_gt (λ l, Some ([], l))))
               (60%N :: l))).
  apply once_succeeds; [done | by apply tag_closes].
Qed.

Lemma tag_match_not_empty (l r : ustring) :
  match_here tag_pattern l ≠ Some ([], r).
Proof.
  intros Hm.
  change (once is_lt (star not_gt (once is_gt (λ l, Some ([], l)))) l
          = Some ([], r)) in Hm.
  by apply once_inv in Hm as (u & l' & m' & _ & _ & ? & _).
Qed.

Lemma remove_all_tag_free (fuel : nat) (l : ustring) :
  (length l ≤ fuel)%nat → tag_free (remove_all fuel tag_pattern l).
Proof.
  revert l. induction fuel as [|fuel IH]; intros l Hlen.
  - destruct l; [apply tag_free_nil | simpl in Hlen; lia].
  - rewrite remove_all_S.
    destruct (match_here tag_pattern l) as [[[|u m] r]|] eqn:Hm.
    + by apply tag_match_not_empty in Hm.
    + apply IH. apply match_here_splits in Hm as ->.
      rewrite length_app in Hlen. simpl in Hlen. lia.
    + destruct l as [|u l]; [apply tag_free_nil|]. simpl in Hlen.
      apply tag_free_cons; [|apply IH; lia].
      intros -> Hin. apply remove_all_elem_of in Hin.
      destruct (tag_matches l Hin) as [x Hx]. congruence.
Qed.

Lemma cap100_not_empty (l : ustring) : l ≠ [] → cap100 l ≠ [].
Proof.
  intros Hl. unfold cap100. destruct (100 <? length l)%nat; [|done].
  intros Happ. apply app_eq_nil in Happ as [_ Hdots]. discriminate Hdots.
Qed.

Lemma not_empty_length (l : ustring) :
  (0 <? length l)%nat = true ↔ l ≠ [].
Proof.
  destruct l; simpl; split; done.
Qed.

Lemma has_dc_not_empty (l : ustring) : existsb is_dc l = true → l ≠ [].
Proof. by destruct l. Qed.

Lemma search_price_not_empty (l m : ustring) :
  search price_pattern l = Some m → m ≠ [].
Proof.
  intros Hm. apply search_piece in Hm as (before & after & _ & Hm).
  by eapply has_dc_not_empty, price_match_has_dc.
Qed.

Lemma search_number_not_empty (l m : ustring) :
  search number_pattern l = Some m → m ≠ [].
Proof.
  intros Hm. apply search_piece in Hm as (before & after & _ & Hm).
  by eapply has_dc_not_empty, number_match_has_dc.
Qed.

Lemma content_card (monitor_type : ustring) (item_name : option ustring)
    (value : ustring) :
  value ≠ [] →
  monitor_type = units "content" ∨ monitor_type = units "selector" →
  formatCurrentValue monitor_type item_name (Some value)
  = if (0 <? length (trim (strip_tags value)))%nat
    then cap100 (trim (strip_tags value))
    else cap100 value.
Proof.
  intros Hne Hty. unfold formatCurrentValue.
  destruct value as [|u value]; [done|].
  assert (Hitem : bool_decide (monitor_type = units "item_search") = false)
    by (by destruct Hty as [-> | ->]).
  assert (Hprice : bool_decide (monitor_type = units "price") = false)
    by (by destruct Hty as [-> | ->]).
  assert (Hshow : bool_decide (monitor_type = units "content")
                  || bool_decide (monitor_type = units "selector") = true)
    by (by destruct Hty as [-> | ->]).
  rewrite Hitem, Hprice, Hshow. by destruct item_name as [[|? ?]|].
Qed.

(** On a content or selector monitor the card never shows more than 103
    characters.  When something is left of the value once its tags and
    the blanks around it are removed, the card shows no tag: no [<] is
    followed, however far, by a [>].  When nothing is left (the value is
    made of tags and blanks only) the card shows the raw value, tags
    included, cut to 100 characters. *)
Theorem content_card_shows_no_tag (monitor_type : ustring)
    (item_name : option ustring) (value : ustring) :
  value ≠ [] →
  monitor_type = units "content" ∨ monitor_type = units "selector" →
  let shown := formatCurrentValue monitor_type item_name (Some value) in
  (length shown ≤ 103)%nat ∧
  (trim (strip_tags value) ≠ [] → tag_free shown) ∧
  (trim (strip_tags value) = [] → shown = cap100 value).
Proof.
  intros Hne Hty. cbv zeta. rewrite (content_card _ _ _ Hne Hty).
  destruct (0 <? length (trim (strip_tags value)))%nat eqn:Hclean.
  - split; [apply cap100_length|]. split.
    + intros _. apply tag_free_cap100.
      apply (tag_free_piece _ (strip_tags value)); [apply trim_piece|].
      by apply remove_all_tag_free.
    + intros Hnil. apply not_empty_length in Hclean. done.
  - split; [apply cap100_length|]. split; [|done].
    intros Hnn. apply not_empty_length in Hnn. congruence.
Qed.

Lemma content_card_shows_no_tag_witness :
  units "<p> Hello <b>world</b> </p>" ≠ [] ∧
  tag_free (formatCurrentValue (units "content") None
              (Some (units "<p> Hello <b>world</b> </p>"))).
Proof.
  assert (Hne : units "<p> Hello <b>world</b> </p>" ≠ []) by discriminate.
  assert (Hclean : trim (strip_tags (units "<p> Hello <b>world</b> </p>"))
                   ≠ []) by (vm_compute; discriminate).
  split; [exact Hne|].
  exact (proj1 (proj2 (content_card_shows_no_tag
                         (units "content") None
                         (units "<p> Hello <b>world</b> </p>")
                         Hne (or_introl eq_refl)))
           Hclean).
Defined.

(** Whatever the monitor, the card is never blank: a missing or empty
    value gives the text [No data yet], and every other branch gives at
    least one character. *)
Theorem card_is_never_blank (monitor_type : ustring)
    (item_name current_value : option ustring) :
  formatCurrentValue monitor_type item_name current_value ≠ [].
Proof.
  unfold formatCurrentValue.
  destruct current_value as [[|u value]|]; [done| |done].
  assert (Hrest :
    match
      (if bool_decide (monitor_type = units "price")
       then match search price_pattern (u :: value) with
            | Some m => Some m
            | None => search number_pattern (u :: value)
            end
       else None)
    with
    | Some shown => shown
    | None =>
        if (bool_decide (monitor_type = units "content")
            || bool_decide (monitor_type = units "selector"))
           && (0 <? length (trim (strip_tags (u :: value))))%nat
        then cap100 (trim (strip_tags (u :: value)))
        else cap100 (u :: value)
    end ≠ []).
  { assert (Hdefault :
      (if (bool_decide (monitor_type = units "content")
           || bool_decide (monitor_type = units "selector"))
          && (0 <? length (trim (strip_tags (u :: value))))%nat
       then cap100 (trim (strip_tags (u :: value)))
       else cap100 (u :: value)) ≠ []).
    { destruct (0 <? length (trim (strip_tags (u :: value))))%nat eqn:Hclean.
      - apply not_empty_length in Hclean.
        destruct (bool_decide (monitor_type = units "content")
                  || bool_decide (monitor_type = units "selector"));
          simpl; by apply cap100_not_empty.
      - rewrite andb_false_r. by apply cap100_not_empty. }
    destruct (bool_decide (monitor_type = units "price")); [|done].
    destruct (search price_pattern (u :: value)) as [m|] eqn:Hp.
    - by eapply search_price_not_empty.
    - destruct (search number_pattern (u :: value)) as [m|] eqn:Hn; [|done].
      by eapply search_number_not_empty. }
  destruct item_name as [[|c name]|]; [done| |done].
  destruct (bool_decide (monitor_type = units "item_search")); done.
Qed.

End current_value.
